(** * A circular gauge widget: the model of [PyQt5_Custom_Circular_Gauge_Widget.py]

    The file embeds the class [CircularGauge]: its constructor, [_get_color],
    [setValue], [normalize_angle], [paintEvent] and the drawing helpers the
    paint callback runs ([drawOuterArc], [drawTicks], [drawNumbers],
    [drawOuterArc2], [drawNeedle]), the helper [drawTicks_ok] that nothing
    calls, and the demo window with its slider.  The properties proved are
    those of the clamping setter, the constructor's check, the needle angle,
    the tick and label loops and the error guard of the paint callback.

    Numbers.  The widget is modelled twice.

    - On rationals ([Q]): every Python [int] and every finite [float] is
      one, the comparisons are the exact ones and so is the arithmetic.
      This model carries the statements that do not depend on rounding:
      which branch [setValue] and the constructor take, which attributes a
      method writes, which painter calls a paint makes and in which order.

    - On doubles (module [B64]): a [float] is a finite binary64 number, an
      infinity or a NaN; every operation rounds to nearest, ties to even,
      and overflows to an infinity; a comparison with a NaN is false; an
      [int] too large for a double, a division by zero and [math.cos] of an
      infinity raise; exceptions that are not instances of [Exception]
      exist.  This model carries the statements about the values computed
      (the needle angle, the tick angles, the text of the labels) and about
      what a paint can raise.  The rounding itself is checked against the
      hardware doubles of Rocq on examples at the end of the file.

    [steps], [outer_circle_thickness] and the pixel sizes of the widget
    rectangle are integers ([Z]).

    Effects.  A method that can raise returns an [outcome].  The painter is
    the list of the calls made on it; the toolkit below it is a parameter
    that tells, call by call, whether the call is executed or raises.
    [update()] and [print] leave a counter and a list of lines in the
    [Widget] that carries the gauge. *)

From Stdlib Require Import QArith Qround Qabs Qpower ZArith List String Lia Lqa Bool.
From Stdlib Require Import DecimalString.
From Stdlib Require Floats.
Import ListNotations.

Set Implicit Arguments.
Local Open Scope Q_scope.

(* ================================================================= *)
(** ** Python: exceptions, results, division, comparison *)

(** Instances of Python's [Exception], the class the [except] clause of
    [paintEvent] names: what the widget's code raises itself ([ValueError],
    [ZeroDivisionError]) and what the toolkit underneath may ([RuntimeError],
    with its message). *)
Inductive exn : Type :=
| ValueError (msg : string)
| ZeroDivisionError
| RuntimeError (msg : string).

(** What a call does: it returns a value or raises. *)
Inductive outcome (A : Type) : Type :=
| Return (a : A)
| Raise (e : exn).
Arguments Return {A} a.
Arguments Raise {A} e.

Definition obind {A B} (m : outcome A) (k : A -> outcome B) : outcome B :=
  match m with
  | Return a => k a
  | Raise e => Raise e
  end.

(** Operators and built-ins of Python on numbers. *)
Module Py.

(** [a < b], [a > b], [a >= b], [a == b] on numbers. *)
Definition lt (a b : Q) : bool := negb (Qle_bool b a).
Definition gt (a b : Q) : bool := negb (Qle_bool a b).
Definition ge (a b : Q) : bool := Qle_bool b a.
Definition eq (a b : Q) : bool := Qeq_bool a b.

(** [a / b]: true division, which raises on a zero divisor. *)
Definition div (a b : Q) : outcome Q :=
  if eq b 0 then Raise ZeroDivisionError else Return (a / b).

(** [a % b] for a positive [b]: the result has the sign of the divisor. *)
Definition mod_ (a b : Q) : Q := a - b * inject_Z (Qfloor (a / b)).

(** [min(a, b)] on integers. *)
Definition min (a b : Z) : Z := if (b <? a)%Z then b else a.

(** [range(n)]: [0, 1, ..., n-1], empty when [n <= 0]. *)
Definition range (n : Z) : list Z := map Z.of_nat (seq 0 (Z.to_nat n)).

(** Rounding to the nearest integer, ties to the even one: what the format
    [.0f] (and [round]) does to the value it prints. *)
Definition round_half_even (x : Q) : Z :=
  let f := Qfloor x in
  let d := x - inject_Z f in
  match Qcompare d (1 # 2) with
  | Lt => f
  | Gt => (f + 1)%Z
  | Eq => if Z.even f then f else (f + 1)%Z
  end.

Definition digits (n : Z) : string :=
  NilZero.string_of_uint (N.to_uint (Z.abs_N n)).

(** [f"{val:.0f}"]: the sign of the value, then the digits of the rounded
    magnitude; a negative value that rounds to zero prints as [-0]. *)
Definition format_0f (val : Q) : string :=
  ((if lt val 0 then "-" else "") ++ digits (round_half_even val))%string.

End Py.

(* ================================================================= *)
(** ** Qt value types *)

Inductive GlobalColor : Type := black | white | red | color0.

(** A [QColor] as the code builds it: from channels, from a global colour,
    or from a colour name. *)
Inductive QColor : Type :=
| QColor_rgb (r g b : Z)
| QColor_rgba (r g b a : Z)
| QColor_global (c : GlobalColor)
| QColor_name (s : string).

(** The colour arguments of the constructor:
    [Union[QColor, Qt.GlobalColor, str]]. *)
Inductive color_arg : Type :=
| ArgQColor (c : QColor)
| ArgGlobal (c : GlobalColor)
| ArgStr (s : string).

(** Truth value of an optional colour argument in [... if color else None]:
    [None], the empty string and the enumerator of value 0 are false. *)
Definition truthy (c : option color_arg) : bool :=
  match c with
  | None => false
  | Some (ArgQColor _) => true
  | Some (ArgGlobal color0) => false
  | Some (ArgGlobal _) => true
  | Some (ArgStr s) => negb (String.eqb s "")
  end.

(* ================================================================= *)
(** ** The gauge *)

Record CircularGauge : Type := mkGauge {
  min_value : Q;
  max_value : Q;
  value : Q;
  steps : Z;
  start_angle : Q;
  end_angle : Q;
  angle_range : Q;
  outer_circle_thickness : Q;
  minimum_size : Z * Z;
  outer_circle_pen_color : QColor;
  outer_circle_brush_color : option QColor;
  inner_ring_pen_color : QColor;
  inner_ring_brush_color : option QColor;
  inner_circle_brush_color : option QColor;
  number_font_size : Z;
  number_font_family : string
}.

(** [_get_color]: a [QColor] is kept, anything else goes through [QColor(...)]. *)
Definition _get_color (color : color_arg) : QColor :=
  match color with
  | ArgQColor c => c
  | ArgGlobal c => QColor_global c
  | ArgStr s => QColor_name s
  end.

Definition opt_color (color : option color_arg) : option QColor :=
  if truthy color then option_map _get_color color else None.

(** The keyword arguments of the constructor, and their defaults. *)
Record kwargs : Type := mkArgs {
  arg_min_value : Q;
  arg_max_value : Q;
  arg_value : Q;
  arg_steps : Z;
  arg_start_angle : Q;
  arg_end_angle : Q;
  arg_outer_circle_pen_color : color_arg;
  arg_outer_circle_brush_color : option color_arg;
  arg_outer_circle_thickness : Q;
  arg_inner_ring_pen_color : color_arg;
  arg_inner_ring_brush_color : option color_arg;
  arg_inner_circle_brush_color : option color_arg;
  arg_number_font_size : Z;
  arg_number_font_family : string
}.

Definition defaults : kwargs :=
  {| arg_min_value := 0;
     arg_max_value := 100;
     arg_value := 50;
     arg_steps := 10;
     arg_start_angle := -(210);
     arg_end_angle := 30;
     arg_outer_circle_pen_color := ArgGlobal black;
     arg_outer_circle_brush_color := None;
     arg_outer_circle_thickness := 12;
     arg_inner_ring_pen_color := ArgGlobal black;
     arg_inner_ring_brush_color := Some (ArgGlobal white);
     arg_inner_circle_brush_color := None;
     arg_number_font_size := 10;
     arg_number_font_family := "Arial" |}.

(** [CircularGauge.__init__]: the bounds are checked, then every attribute is
    assigned from its argument; [value] and [steps] are stored as given. *)
Definition __init__ (a : kwargs) : outcome CircularGauge :=
  if Py.ge (arg_min_value a) (arg_max_value a) then
    Raise (ValueError "min_value must be less than max_value")
  else
    Return
      {| min_value := arg_min_value a;
         max_value := arg_max_value a;
         value := arg_value a;
         steps := arg_steps a;
         start_angle := arg_start_angle a;
         end_angle := arg_end_angle a;
         angle_range := arg_end_angle a - arg_start_angle a;
         outer_circle_thickness := arg_outer_circle_thickness a;
         minimum_size := (200, 200)%Z;
         outer_circle_pen_color := _get_color (arg_outer_circle_pen_color a);
         outer_circle_brush_color := opt_color (arg_outer_circle_brush_color a);
         inner_ring_pen_color := _get_color (arg_inner_ring_pen_color a);
         inner_ring_brush_color := opt_color (arg_inner_ring_brush_color a);
         inner_circle_brush_color := opt_color (arg_inner_circle_brush_color a);
         number_font_size := arg_number_font_size a;
         number_font_family := arg_number_font_family a |}.

(** The assignment [self.value = v]. *)
Definition set_value_attr (self : CircularGauge) (v : Q) : CircularGauge :=
  {| min_value := min_value self;
     max_value := max_value self;
     value := v;
     steps := steps self;
     start_angle := start_angle self;
     end_angle := end_angle self;
     angle_range := angle_range self;
     outer_circle_thickness := outer_circle_thickness self;
     minimum_size := minimum_size self;
     outer_circle_pen_color := outer_circle_pen_color self;
     outer_circle_brush_color := outer_circle_brush_color self;
     inner_ring_pen_color := inner_ring_pen_color self;
     inner_ring_brush_color := inner_ring_brush_color self;
     inner_circle_brush_color := inner_circle_brush_color self;
     number_font_size := number_font_size self;
     number_font_family := number_font_family self |}.

(* ================================================================= *)
(** ** The painter *)

Inductive pen : Type := NoPen | QPen (c : QColor) (width : Q).
Inductive brush : Type := NoBrush | QBrush (c : QColor).

Record QPointF : Type := mkPointF { ptx : Q; pty : Q }.
Record QRectF : Type := mkRectF { rfx : Q; rfy : Q; rfw : Q; rfh : Q }.

(** [self.rect()]: the widget's rectangle, at the origin, in pixels. *)
Record QRect : Type := mkRect { width : Z; height : Z }.

(** [QRect.center()]: the integer midpoint of the left/right and top/bottom
    pixel coordinates, [right = left + width - 1]. *)
Definition center (r : QRect) : Z * Z :=
  (Z.quot (0 + (width r - 1)) 2, Z.quot (0 + (height r - 1)) 2).

Inductive path_element : Type :=
| arcMoveTo (rect : QRectF) (angle : Q)
| arcTo (rect : QRectF) (startAngle spanAngle : Q)
| addEllipse (c : QPointF) (rx ry : Q).

Inductive QPainterPath : Type :=
| Path (elements : list path_element)
| subtracted (p q : QPainterPath).

(** The calls the paint callback makes on the toolkit, the creation of the
    painter included. *)
Inductive painter_call : Type :=
| QPainter_on_widget
| setRenderHint_Antialiasing
| translate (dx dy : Q)
| rotate (a : Q)
| save
| restore
| setPen (p : pen)
| setBrush (b : brush)
| setFont (family : string) (size : Z)
| drawLine (p1 p2 : QPointF)
| drawText (rect : QRectF) (text : string)
| drawPath (path : QPainterPath)
| drawPolygon (points : list QPointF)
| drawEllipse (c : QPointF) (rx ry : Q).

(** The toolkit under the widget: given the calls a painter has executed so
    far and the next call, it executes the call or raises.  A [restore] that
    matches no [save] is executed too (Qt warns and goes on). *)
Definition toolkit : Type := list painter_call -> painter_call -> option exn.

(** The toolkit that never raises. *)
Definition no_fault : toolkit := fun _ _ => None.

(** Code that drives a painter: it reads the toolkit, extends the list of the
    calls executed and returns or raises.  The calls executed before a raise
    stay executed. *)
Definition Paint (A : Type) : Type :=
  toolkit -> list painter_call -> outcome A * list painter_call.

Definition ret {A} (a : A) : Paint A := fun _ tr => (Return a, tr).

Definition bind {A B} (m : Paint A) (k : A -> Paint B) : Paint B :=
  fun tk tr =>
    match m tk tr with
    | (Return a, tr') => k a tk tr'
    | (Raise e, tr') => (Raise e, tr')
    end.

Definition call (c : painter_call) : Paint unit :=
  fun tk tr =>
    match tk tr c with
    | Some e => (Raise e, tr)
    | None => (Return tt, tr ++ [c])
    end.

Definition lift {A} (o : outcome A) : Paint A := fun _ tr => (o, tr).

Declare Scope paint_scope.
Delimit Scope paint_scope with paint.
Notation "x <- m ;; k" := (bind m (fun x => k))
  (at level 100, m at next level, right associativity) : paint_scope.
Notation "m ;; k" := (bind m (fun _ => k))
  (at level 100, right associativity) : paint_scope.

(** [for x in l: body(x)]. *)
Fixpoint for_each {A} (l : list A) (body : A -> Paint unit) : Paint unit :=
  match l with
  | [] => ret tt
  | x :: l' => (body x ;; for_each l' body)%paint
  end.

(** [value_ratio] of [drawNeedle]: the division is behind the test of the
    range. *)
Definition value_ratio (self : CircularGauge) : outcome Q :=
  let value_range := max_value self - min_value self in
  if Py.eq value_range 0 then Return 0
  else Py.div (value self - min_value self) value_range.

(** The angle of the needle for the current value, as [drawNeedle] computes
    it. *)
Definition needle_angle (self : CircularGauge) : outcome Q :=
  obind (value_ratio self) (fun value_ratio =>
  Return (start_angle self + value_ratio * angle_range self)).

(** [normalize_angle]. *)
Definition normalize_angle (angle : Q) : Q := Py.mod_ angle 360.

(* ================================================================= *)
(** ** Binary64 numbers

    A Python [float] is an IEEE 754 binary64 number.  The finite ones are
    rationals, and an operation on them returns the exact result rounded to
    the nearest double, ties to the one whose significand is even. *)

Unset Implicit Arguments.

(** [2^e]. *)
Definition pow2 (e : Z) : Q := Qpower 2 e.

(** The magnitude of [x]: the [e] with [2^(e-1) <= |x| < 2^e], and [0] for
    [x = 0]. *)
Definition mag (x : Q) : Z :=
  match Qnum x with
  | Z0 => 0%Z
  | Zpos n | Zneg n =>
      let e0 := (Z.log2 (Zpos n) - Z.log2 (Zpos (Qden x)))%Z in
      if Qle_bool (pow2 e0) (Qabs x) then (e0 + 1)%Z else e0
  end.

(** The exponent of the last bit of the double nearest to [x]: 53 bits
    below the magnitude, and not below that of the subnormal numbers. *)
Definition cexp (x : Q) : Z := Z.max (mag x - 53) (-1074).

(** [x] rounded to the nearest multiple of [2^e], ties to the even one. *)
Definition rnd_at (e : Z) (x : Q) : Q :=
  inject_Z (Py.round_half_even (x / pow2 e)) * pow2 e.

(** [x] rounded to 53 bits; the test for overflow is [round_fin]'s. *)
Definition rnd (x : Q) : Q := rnd_at (cexp x) x.

(** [g] is a multiple of [2^e]. *)
Definition on_grid (e : Z) (g : Q) : Prop :=
  exists k : Z, g == inject_Z k * pow2 e.

(** [x] is a double, the range apart: rounding leaves it as it is. *)
Definition representable (x : Q) : Prop := rnd x == x.

(* ================================================================= *)
(** ** The widget on binary64 numbers *)

Module B64.

(** *** Doubles *)

(** A double: a finite value (a rational; the sign of a zero is not kept),
    an infinity or a NaN. *)
Inductive double : Type :=
| Fin (q : Q)
| Inf (neg : bool)
| NaN.

Definition is_neg (q : Q) : bool := negb (Qle_bool 0 q).

(** The double an exact result rounds to: the nearest one, ties to even,
    an infinity when the rounded value leaves the range. *)
Definition round_fin (x : Q) : double :=
  let r := rnd x in
  if Qle_bool (pow2 1024) (Qabs r) then Inf (is_neg x) else Fin (Qred r).

Definition is_inf (a : double) : bool :=
  match a with Inf _ => true | _ => false end.

Definition is_nan (a : double) : bool :=
  match a with NaN => true | _ => false end.

Definition is_fin (a : double) : bool :=
  match a with Fin _ => true | _ => false end.

Definition is_zero (a : double) : bool :=
  match a with Fin q => Qeq_bool q 0 | _ => false end.

(** [-a], [a + b], [a - b], [a * b] on floats. *)
Definition neg (a : double) : double :=
  match a with
  | Fin q => Fin (Qred (- q))
  | Inf s => Inf (negb s)
  | NaN => NaN
  end.

Definition add (a b : double) : double :=
  match a, b with
  | NaN, _ | _, NaN => NaN
  | Inf s, Inf t => if Bool.eqb s t then Inf s else NaN
  | Inf s, Fin _ => Inf s
  | Fin _, Inf t => Inf t
  | Fin x, Fin y => round_fin (x + y)
  end.

Definition sub (a b : double) : double := add a (neg b).

Definition mul (a b : double) : double :=
  match a, b with
  | NaN, _ | _, NaN => NaN
  | Inf s, Inf t => Inf (xorb s t)
  | Inf s, Fin y => if Qeq_bool y 0 then NaN else Inf (xorb s (is_neg y))
  | Fin x, Inf t => if Qeq_bool x 0 then NaN else Inf (xorb (is_neg x) t)
  | Fin x, Fin y => round_fin (x * y)
  end.

(** [a < b], [a <= b], [a > b], [a >= b], [a == b] on floats: false as soon
    as one side is a NaN. *)
Definition lt (a b : double) : bool :=
  match a, b with
  | NaN, _ | _, NaN => false
  | Fin x, Fin y => negb (Qle_bool y x)
  | Fin _, Inf t => negb t
  | Inf s, Fin _ => s
  | Inf s, Inf t => s && negb t
  end.

Definition le (a b : double) : bool :=
  match a, b with
  | NaN, _ | _, NaN => false
  | Fin x, Fin y => Qle_bool x y
  | Fin _, Inf t => negb t
  | Inf s, Fin _ => s
  | Inf s, Inf t => s || negb t
  end.

Definition gt (a b : double) : bool := lt b a.
Definition ge (a b : double) : bool := le b a.

Definition eq (a b : double) : bool :=
  match a, b with
  | Fin x, Fin y => Qeq_bool x y
  | Inf s, Inf t => Bool.eqb s t
  | _, _ => false
  end.

(** *** Exceptions and results *)

(** What a call can raise.  [KeyboardInterrupt] and [SystemExit] are not
    instances of [Exception]; the others are. *)
Inductive exn : Type :=
| ValueError (msg : string)
| ZeroDivisionError
| OverflowError
| RuntimeError (msg : string)
| KeyboardInterrupt
| SystemExit.

(** [isinstance(e, Exception)]. *)
Definition is_Exception (e : exn) : bool :=
  match e with
  | KeyboardInterrupt | SystemExit => false
  | _ => true
  end.

Inductive outcome (A : Type) : Type :=
| Return (a : A)
| Raise (e : exn).
Arguments Return {A} a.
Arguments Raise {A} e.

Definition obind {A B} (m : outcome A) (k : A -> outcome B) : outcome B :=
  match m with
  | Return a => k a
  | Raise e => Raise e
  end.

(** The quotient of two floats, the divisor not being zero. *)
Definition quot (a b : double) : double :=
  match a, b with
  | NaN, _ | _, NaN => NaN
  | Inf _, Inf _ => NaN
  | Inf s, Fin y => Inf (xorb s (is_neg y))
  | Fin _, Inf _ => Fin 0
  | Fin x, Fin y => round_fin (x / y)
  end.

(** [a / b] on floats: a zero divisor raises, whatever the dividend. *)
Definition div (a b : double) : outcome double :=
  if is_zero b then Raise ZeroDivisionError else Return (quot a b).

(** The double nearest to an integer (an infinity when there is none). *)
Definition float_of (n : Z) : double := round_fin (inject_Z n).

(** The float of an [int], as the mixed operations [float / int],
    [int * float] and [float - int] take it: the nearest double, and
    [OverflowError] when the integer is too large for one. *)
Definition of_int (n : Z) : outcome double :=
  match float_of n with
  | Fin q => Return (Fin q)
  | _ => Raise OverflowError
  end.

(** [a / b] on two [int]s: the exact quotient, rounded once. *)
Definition truediv_int (a b : Z) : outcome double :=
  if (b =? 0)%Z then Raise ZeroDivisionError
  else
    match round_fin (inject_Z a / inject_Z b) with
    | Fin q => Return (Fin q)
    | _ => Raise OverflowError
    end.

(** [a % 360] on a float: the remainder of the division truncated towards
    zero, which is exact, moved into the sign of the divisor by one rounded
    addition; a NaN for an infinite or NaN [a]. *)
Definition mod_360 (a : double) : double :=
  match a with
  | Fin q =>
      let t := if Qle_bool 0 q then Qfloor (q / 360) else Qceiling (q / 360) in
      let m := q - 360 * inject_Z t in
      if Qeq_bool m 0 then Fin 0
      else if Qle_bool 0 m then Fin (Qred m)
      else round_fin (m + 360)
  | _ => NaN
  end.

(** [f"{val:.0f}"] on a float. *)
Definition format_0f (val : double) : string :=
  match val with
  | Fin q => Py.format_0f q
  | Inf false => "inf"
  | Inf true => "-inf"
  | NaN => "nan"
  end.

(** The double nearest to pi / 180, by which [math.radians] multiplies. *)
Definition deg_to_rad : Q := 5030569068109113 # 288230376151711744.

Definition radians (x : double) : double := mul x (Fin deg_to_rad).


(** *** The gauge *)

Record CircularGauge : Type := mkGauge {
  min_value : double;
  max_value : double;
  value : double;
  steps : Z;
  start_angle : double;
  end_angle : double;
  angle_range : double;
  outer_circle_thickness : Z;
  minimum_size : Z * Z;
  outer_circle_pen_color : QColor;
  outer_circle_brush_color : option QColor;
  inner_ring_pen_color : QColor;
  inner_ring_brush_color : option QColor;
  inner_circle_brush_color : option QColor;
  number_font_size : Z;
  number_font_family : string
}.

(** The keyword arguments of the constructor.  The arguments annotated
    [float] are floats (an [int] passed for one behaves as the float of the
    same value as long as it is below 2^53 in magnitude); those annotated
    [int] are integers. *)
Record kwargs : Type := mkArgs {
  arg_min_value : double;
  arg_max_value : double;
  arg_value : double;
  arg_steps : Z;
  arg_start_angle : double;
  arg_end_angle : double;
  arg_outer_circle_pen_color : color_arg;
  arg_outer_circle_brush_color : option color_arg;
  arg_outer_circle_thickness : Z;
  arg_inner_ring_pen_color : color_arg;
  arg_inner_ring_brush_color : option color_arg;
  arg_inner_circle_brush_color : option color_arg;
  arg_number_font_size : Z;
  arg_number_font_family : string
}.

Definition defaults : kwargs :=
  {| arg_min_value := Fin 0;
     arg_max_value := Fin 100;
     arg_value := Fin 50;
     arg_steps := 10;
     arg_start_angle := Fin (-(210));
     arg_end_angle := Fin 30;
     arg_outer_circle_pen_color := ArgGlobal black;
     arg_outer_circle_brush_color := None;
     arg_outer_circle_thickness := 12;
     arg_inner_ring_pen_color := ArgGlobal black;
     arg_inner_ring_brush_color := Some (ArgGlobal white);
     arg_inner_circle_brush_color := None;
     arg_number_font_size := 10;
     arg_number_font_family := "Arial" |}.

(** The arguments of the demo window. *)
Definition demo_kwargs : kwargs :=
  {| arg_min_value := Fin 0;
     arg_max_value := Fin 30;
     arg_value := Fin 0;
     arg_steps := 15;
     arg_start_angle := Fin (-(210));
     arg_end_angle := Fin 30;
     arg_outer_circle_pen_color := ArgQColor (QColor_rgb 0 150 255);
     arg_outer_circle_brush_color := Some (ArgStr "white");
     arg_outer_circle_thickness := 20;
     arg_inner_ring_pen_color := ArgQColor (QColor_rgb 0 150 255);
     arg_inner_ring_brush_color := Some (ArgQColor (QColor_rgb 0 150 255));
     arg_inner_circle_brush_color := Some (ArgStr "white");
     arg_number_font_size := 14;
     arg_number_font_family := "Arial" |}.

(** [CircularGauge.__init__]. *)
Definition __init__ (a : kwargs) : outcome CircularGauge :=
  if ge (arg_min_value a) (arg_max_value a) then
    Raise (ValueError "min_value must be less than max_value")
  else
    Return
      {| min_value := arg_min_value a;
         max_value := arg_max_value a;
         value := arg_value a;
         steps := arg_steps a;
         start_angle := arg_start_angle a;
         end_angle := arg_end_angle a;
         angle_range := sub (arg_end_angle a) (arg_start_angle a);
         outer_circle_thickness := arg_outer_circle_thickness a;
         minimum_size := (200, 200)%Z;
         outer_circle_pen_color := _get_color (arg_outer_circle_pen_color a);
         outer_circle_brush_color := opt_color (arg_outer_circle_brush_color a);
         inner_ring_pen_color := _get_color (arg_inner_ring_pen_color a);
         inner_ring_brush_color := opt_color (arg_inner_ring_brush_color a);
         inner_circle_brush_color := opt_color (arg_inner_circle_brush_color a);
         number_font_size := arg_number_font_size a;
         number_font_family := arg_number_font_family a |}.

(** The assignment [self.value = v]. *)
Definition set_value_attr (self : CircularGauge) (v : double)
  : CircularGauge :=
  {| min_value := min_value self;
     max_value := max_value self;
     value := v;
     steps := steps self;
     start_angle := start_angle self;
     end_angle := end_angle self;
     angle_range := angle_range self;
     outer_circle_thickness := outer_circle_thickness self;
     minimum_size := minimum_size self;
     outer_circle_pen_color := outer_circle_pen_color self;
     outer_circle_brush_color := outer_circle_brush_color self;
     inner_ring_pen_color := inner_ring_pen_color self;
     inner_ring_brush_color := inner_ring_brush_color self;
     inner_circle_brush_color := inner_circle_brush_color self;
     number_font_size := number_font_size self;
     number_font_family := number_font_family self |}.

(** The branches of [setValue]. *)
Definition clamp (self : CircularGauge) (v : double) : double :=
  if lt v (min_value self) then min_value self
  else if gt v (max_value self) then max_value self
  else v.

(** [normalize_angle]. *)
Definition normalize_angle (angle : double) : double := mod_360 angle.

(** [value_ratio] and [angle] of [drawNeedle]. *)
Definition value_ratio (self : CircularGauge) : outcome double :=
  let value_range := sub (max_value self) (min_value self) in
  if eq value_range (Fin 0) then Return (Fin 0)
  else div (sub (value self) (min_value self)) value_range.

Definition needle_angle (self : CircularGauge) : outcome double :=
  obind (value_ratio self) (fun value_ratio =>
  Return (add (start_angle self) (mul value_ratio (angle_range self)))).

(** *** The painter *)

Inductive pen : Type := NoPen | QPen (c : QColor) (width : double).

Record QPointF : Type := mkPointF { ptx : double; pty : double }.
Record QRectF : Type :=
  mkRectF { rfx : double; rfy : double; rfw : double; rfh : double }.

Inductive path_element : Type :=
| arcMoveTo (rect : QRectF) (angle : double)
| arcTo (rect : QRectF) (startAngle spanAngle : double)
| addEllipse (c : QPointF) (rx ry : double).

Inductive QPainterPath : Type :=
| Path (elements : list path_element)
| subtracted (p q : QPainterPath).

Inductive painter_call : Type :=
| QPainter_on_widget
| setRenderHint_Antialiasing
| translate_QPoint (x y : Z)
| translate (dx dy : double)
| rotate (a : double)
| save
| restore
| setPen (p : pen)
| setBrush (b : brush)
| setFont (family : string) (size : Z)
| drawLine (p1 p2 : QPointF)
| drawText (rect : QRectF) (text : string)
| drawPath (path : QPainterPath)
| drawPolygon (points : list QPointF)
| drawEllipse (c : QPointF) (rx ry : double).

(** The toolkit: given the calls the painter has executed and the next one,
    it executes the call or raises; what it raises need not be an instance
    of [Exception] (an interrupt can arrive during a call). *)
Definition toolkit : Type := list painter_call -> painter_call -> option exn.

Definition no_fault : toolkit := fun _ _ => None.

Definition Paint (A : Type) : Type :=
  toolkit -> list painter_call -> outcome A * list painter_call.

Definition ret {A} (a : A) : Paint A := fun _ tr => (Return a, tr).

Definition bind {A B} (m : Paint A) (k : A -> Paint B) : Paint B :=
  fun tk tr =>
    match m tk tr with
    | (Return a, tr') => k a tk tr'
    | (Raise e, tr') => (Raise e, tr')
    end.

Definition call (c : painter_call) : Paint unit :=
  fun tk tr =>
    match tk tr c with
    | Some e => (Raise e, tr)
    | None => (Return tt, tr ++ [c])
    end.

Definition lift {A} (o : outcome A) : Paint A := fun _ tr => (o, tr).

Declare Scope b64_scope.
Delimit Scope b64_scope with b64.
Notation "x <- m ;; k" := (bind m (fun x => k))
  (at level 100, m at next level, right associativity) : b64_scope.
Notation "m ;; k" := (bind m (fun _ => k))
  (at level 100, right associativity) : b64_scope.

Fixpoint for_each {A} (l : list A) (body : A -> Paint unit) : Paint unit :=
  match l with
  | [] => ret tt
  | x :: l' => (body x ;; for_each l' body)%b64
  end.

Section Painting.

(** The values of [math.cos] and [math.sin] on the finite doubles are taken
    as given. *)
Variables cos_fin sin_fin : Q -> Q.

(** The value [math.cos] returns when it returns. *)
Definition cos_of (x : double) : double :=
  match x with Fin q => Fin (cos_fin q) | _ => NaN end.

Definition sin_of (x : double) : double :=
  match x with Fin q => Fin (sin_fin q) | _ => NaN end.

(** [math.cos] and [math.sin]: a NaN gives a NaN, an infinity raises. *)
Definition math_cos (x : double) : outcome double :=
  if is_inf x then Raise (ValueError "math domain error")
  else Return (cos_of x).

Definition math_sin (x : double) : outcome double :=
  if is_inf x then Raise (ValueError "math domain error")
  else Return (sin_of x).

Local Open Scope b64_scope.

Definition arc_path (self : CircularGauge) (radius : double) : QPainterPath :=
  let arc_rect :=
    mkRectF (neg radius) (neg radius)
            (mul (Fin 2) radius) (mul (Fin 2) radius) in
  let start_angle_normalized := normalize_angle (start_angle self) in
  let startAngle := neg start_angle_normalized in
  let spanAngle := neg (angle_range self) in
  Path [arcMoveTo arc_rect startAngle; arcTo arc_rect startAngle spanAngle].

Definition drawOuterArc (self : CircularGauge) (radius : double)
  : Paint unit :=
  let path := arc_path self radius in
  width <- lift (of_int (outer_circle_thickness self)) ;;
  call (setPen (QPen (outer_circle_pen_color self) width)) ;;
  match outer_circle_brush_color self with
  | Some c => call (setBrush (QBrush c))
  | None => call (setBrush NoBrush)
  end ;;
  call (drawPath path) ;;
  call restore.

Definition drawOuterArc2 (self : CircularGauge) (radius : double)
  : Paint unit :=
  let path := arc_path self radius in
  width <- lift (truediv_int (outer_circle_thickness self) 2) ;;
  call (setPen (QPen (QColor_rgba 200 200 200 200) width)) ;;
  call (setBrush NoBrush) ;;
  call (drawPath path) ;;
  call restore.

(** One pass of the loop of [drawTicks]. *)
Definition tick (self : CircularGauge) (radius angle_step : double) (i : Z)
  : Paint unit :=
  call (setPen (QPen (QColor_global red) (Fin 6))) ;;
  fi <- lift (of_int i) ;;
  let angle := add (start_angle self) (mul fi angle_step) in
  let rad := radians angle in
  c1 <- lift (math_cos rad) ;;
  let x1 := mul (sub radius (Fin 10)) c1 in
  s1 <- lift (math_sin rad) ;;
  let y1 := mul (sub radius (Fin 10)) s1 in
  c2 <- lift (math_cos rad) ;;
  let x2 := mul radius c2 in
  s2 <- lift (math_sin rad) ;;
  let y2 := mul radius s2 in
  call (drawLine (mkPointF x1 y1) (mkPointF x2 y2)) ;;
  call restore.

Definition drawTicks (self : CircularGauge) (radius : double) : Paint unit :=
  call save ;;
  fsteps <- lift (of_int (steps self)) ;;
  angle_step <- lift (div (angle_range self) fsteps) ;;
  for_each (Py.range (steps self + 1)) (tick self radius angle_step) ;;
  call restore.

(** One pass of the loop of [drawNumbers]. *)
Definition number (self : CircularGauge) (radius angle_step : double) (i : Z)
  : Paint unit :=
  fi <- lift (of_int i) ;;
  let angle := add (start_angle self) (mul fi angle_step) in
  let rad := radians angle in
  fi' <- lift (of_int i) ;;
  fsteps <- lift (of_int (steps self)) ;;
  q <- lift (div (mul fi' (sub (max_value self) (min_value self))) fsteps) ;;
  let val := add (min_value self) q in
  let text := format_0f val in
  let text_rect := mkRectF (Fin (-(15))) (Fin (-(15))) (Fin 34) (Fin 34) in
  c <- lift (math_cos rad) ;;
  let text_x := mul (sub radius (Fin 25)) c in
  s <- lift (math_sin rad) ;;
  let text_y := mul (sub radius (Fin 25)) s in
  call save ;;
  call (translate text_x text_y) ;;
  call (rotate (add angle (Fin 90))) ;;
  call (drawText text_rect text) ;;
  call restore.

Definition drawNumbers (self : CircularGauge) (radius : double)
  : Paint unit :=
  call save ;;
  call (setPen (QPen (QColor_rgb 0 150 255) (Fin 2))) ;;
  fsteps <- lift (of_int (steps self)) ;;
  angle_step <- lift (div (angle_range self) fsteps) ;;
  call (setFont (number_font_family self) (number_font_size self)) ;;
  for_each (Py.range (steps self + 1)) (number self radius angle_step) ;;
  call restore.

Definition drawNeedle (self : CircularGauge) (radius : double)
  : Paint unit :=
  call save ;;
  angle <- lift (needle_angle self) ;;
  let needle :=
    [mkPointF (Fin 0) (Fin (-(5)));
     mkPointF (sub radius (Fin 20)) (Fin 0);
     mkPointF (Fin 0) (Fin 5)] in
  call save ;;
  call (rotate angle) ;;
  call (translate (Fin 2) (Fin 2)) ;;
  let shadow_color := QColor_rgba 0 0 0 80 in
  call (setPen NoPen) ;;
  call (setBrush (QBrush shadow_color)) ;;
  call (drawPolygon needle) ;;
  call restore ;;
  call save ;;
  call (rotate angle) ;;
  call (setPen (QPen (QColor_rgb 0 150 255) (Fin 1))) ;;
  call (setBrush (QBrush (QColor_rgb 0 150 255))) ;;
  call (drawPolygon needle) ;;
  call restore ;;
  call save ;;
  call (rotate angle) ;;
  call (translate (Fin 2) (Fin 2)) ;;
  call (setPen NoPen) ;;
  call (setBrush (QBrush shadow_color)) ;;
  let center_circle_radius_outer := Fin 12 in
  let center_circle_radius_inner := Fin 5 in
  let ring_path :=
    Path [addEllipse (mkPointF (Fin 0) (Fin 0)) center_circle_radius_outer
                     center_circle_radius_outer] in
  let ring_inner_path :=
    Path [addEllipse (mkPointF (Fin 0) (Fin 0)) center_circle_radius_inner
                     center_circle_radius_inner] in
  let ring_shadow_path := subtracted ring_path ring_inner_path in
  call (drawPath ring_shadow_path) ;;
  call restore ;;
  call (setPen (QPen (inner_ring_pen_color self) (Fin 1))) ;;
  match inner_ring_brush_color self with
  | Some c => call (setBrush (QBrush c))
  | None => call (setBrush NoBrush)
  end ;;
  call (drawPath ring_path) ;;
  match inner_circle_brush_color self with
  | Some c =>
      call (setPen NoPen) ;;
      call (setBrush (QBrush c)) ;;
      call (drawEllipse (mkPointF (Fin 0) (Fin 0)) center_circle_radius_inner
                        center_circle_radius_inner)
  | None => ret tt
  end ;;
  call restore.

(** [min(rect.width(), rect.height()) / 2]: the sides of a [QRect] are C
    integers, whose half is a double, so that this division is exact. *)
Definition half_min_side (rect : QRect) : double :=
  Fin (Qred (inject_Z (Py.min (width rect) (height rect)) / 2)).

(** The block under [try:] in [paintEvent]. *)
Definition paint_body (self : CircularGauge) (rect : QRect) : Paint unit :=
  call QPainter_on_widget ;;
  call setRenderHint_Antialiasing ;;
  let center := center rect in
  thickness <- lift (of_int (outer_circle_thickness self)) ;;
  let radius := sub (half_min_side rect) thickness in
  call (translate_QPoint (fst center) (snd center)) ;;
  drawOuterArc self radius ;;
  drawTicks self radius ;;
  drawNumbers self radius ;;
  drawOuterArc2 self radius ;;
  drawNeedle self radius.

(** *** The widget in its host *)

Inductive printed : Type := Error_in_paintEvent (e : exn).

Record Widget : Type := mkWidget {
  gauge : CircularGauge;
  update_requests : nat;
  frames : list (list painter_call);
  stdout : list printed
}.

Definition new_widget (self : CircularGauge) : Widget :=
  {| gauge := self; update_requests := 0; frames := []; stdout := [] |}.

(** [setValue]: clamp, store, ask for a redraw.  Nothing in it raises. *)
Definition setValue (v : double) (w : Widget) : outcome unit * Widget :=
  (Return tt,
   {| gauge := set_value_attr (gauge w) (clamp (gauge w) v);
      update_requests := S (update_requests w);
      frames := frames w;
      stdout := stdout w |}).

(** [paintEvent]: the body runs on a new painter; what it raises is caught
    and printed when it is an instance of [Exception], and leaves the
    callback otherwise.  The calls executed are executed in every case. *)
Definition paintEvent (tk : toolkit) (rect : QRect) (w : Widget)
  : outcome unit * Widget :=
  match paint_body (gauge w) rect tk [] with
  | (Return _, calls) =>
      (Return tt,
       {| gauge := gauge w;
          update_requests := update_requests w;
          frames := frames w ++ [calls];
          stdout := stdout w |})
  | (Raise e, calls) =>
      if is_Exception e then
        (Return tt,
         {| gauge := gauge w;
            update_requests := update_requests w;
            frames := frames w ++ [calls];
            stdout := stdout w ++ [Error_in_paintEvent e] |})
      else
        (Raise e,
         {| gauge := gauge w;
            update_requests := update_requests w;
            frames := frames w ++ [calls];
            stdout := stdout w |})
  end.

(** *** What a paint is to execute *)

Definition is_drawLine (c : painter_call) : bool :=
  match c with drawLine _ _ => true | _ => false end.

Definition is_drawText (c : painter_call) : bool :=
  match c with drawText _ _ => true | _ => false end.

(** The calls that put something on the screen. *)
Definition is_draw (c : painter_call) : bool :=
  match c with
  | drawLine _ _ | drawText _ _ | drawPath _ | drawPolygon _
  | drawEllipse _ _ _ => true
  | _ => false
  end.

(** [radius] of [paintEvent]. *)
Definition radius_of (self : CircularGauge) (rect : QRect) : double :=
  sub (half_min_side rect) (float_of (outer_circle_thickness self)).

(** The angle of the tick of index [i],
    [start_angle + i * (angle_range / steps)], every operation a float
    one. *)
Definition tick_angle (self : CircularGauge) (i : Z) : double :=
  add (start_angle self)
      (mul (float_of i) (quot (angle_range self) (float_of (steps self)))).

(** What the two loops need to run to their end: [steps] is not zero and
    has a float, and no tick is at an infinite angle. *)
Definition ticks_defined (self : CircularGauge) : Prop :=
  steps self <> 0%Z /\
  is_fin (float_of (steps self)) = true /\
  forall i, (0 <= i <= steps self)%Z ->
    is_inf (radians (tick_angle self i)) = false.

(** The tick of index [i]: the segment from radius [r - 10] to radius [r]
    at the angle of the tick. *)
Definition tick_segment (self : CircularGauge) (r : double) (i : Z)
  : painter_call :=
  let rad := radians (tick_angle self i) in
  drawLine (mkPointF (mul (sub r (Fin 10)) (cos_of rad))
                     (mul (sub r (Fin 10)) (sin_of rad)))
           (mkPointF (mul r (cos_of rad)) (mul r (sin_of rad))).

(** The value the label of index [i] shows, before formatting:
    [min_value + i * (max_value - min_value) / steps], every operation a
    float one. *)
Definition label_value (self : CircularGauge) (i : Z) : double :=
  add (min_value self)
      (quot (mul (float_of i) (sub (max_value self) (min_value self)))
            (float_of (steps self))).

(** The label of index [i], in the square the code centres the text in. *)
Definition label_text (self : CircularGauge) (i : Z) : painter_call :=
  drawText (mkRectF (Fin (-(15))) (Fin (-(15))) (Fin 34) (Fin 34))
           (format_0f (label_value self i)).

(** The calls of one tick, of one label, and of each helper. *)
Definition tick_calls (self : CircularGauge) (r : double) (i : Z)
  : list painter_call :=
  [setPen (QPen (QColor_global red) (Fin 6)); tick_segment self r i; restore].

Definition number_calls (self : CircularGauge) (r : double) (i : Z)
  : list painter_call :=
  let angle := tick_angle self i in
  let rad := radians angle in
  [save;
   translate (mul (sub r (Fin 25)) (cos_of rad))
             (mul (sub r (Fin 25)) (sin_of rad));
   rotate (add angle (Fin 90));
   label_text self i;
   restore].

Definition brush_of (c : option QColor) : brush :=
  match c with Some c => QBrush c | None => NoBrush end.

Definition outer_arc_calls (self : CircularGauge) (r : double)
  : list painter_call :=
  [setPen (QPen (outer_circle_pen_color self)
                (float_of (outer_circle_thickness self)));
   setBrush (brush_of (outer_circle_brush_color self));
   drawPath (arc_path self r);
   restore].

Definition outer_arc2_calls (self : CircularGauge) (r : double)
  : list painter_call :=
  [setPen (QPen (QColor_rgba 200 200 200 200)
                (round_fin (inject_Z (outer_circle_thickness self)
                            / inject_Z 2)));
   setBrush NoBrush;
   drawPath (arc_path self r);
   restore].

Definition ticks_calls (self : CircularGauge) (r : double)
  : list painter_call :=
  [save] ++ flat_map (tick_calls self r) (Py.range (steps self + 1))
  ++ [restore].

Definition numbers_calls (self : CircularGauge) (r : double)
  : list painter_call :=
  [save; setPen (QPen (QColor_rgb 0 150 255) (Fin 2));
   setFont (number_font_family self) (number_font_size self)]
  ++ flat_map (number_calls self r) (Py.range (steps self + 1))
  ++ [restore].

Definition needle_calls (self : CircularGauge) (r angle : double)
  : list painter_call :=
  let needle :=
    [mkPointF (Fin 0) (Fin (-(5)));
     mkPointF (sub r (Fin 20)) (Fin 0);
     mkPointF (Fin 0) (Fin 5)] in
  let shadow_color := QColor_rgba 0 0 0 80 in
  let ring_path :=
    Path [addEllipse (mkPointF (Fin 0) (Fin 0)) (Fin 12) (Fin 12)] in
  let ring_inner_path :=
    Path [addEllipse (mkPointF (Fin 0) (Fin 0)) (Fin 5) (Fin 5)] in
  [save;
   save; rotate angle; translate (Fin 2) (Fin 2); setPen NoPen;
   setBrush (QBrush shadow_color); drawPolygon needle; restore;
   save; rotate angle; setPen (QPen (QColor_rgb 0 150 255) (Fin 1));
   setBrush (QBrush (QColor_rgb 0 150 255)); drawPolygon needle; restore;
   save; rotate angle; translate (Fin 2) (Fin 2); setPen NoPen;
   setBrush (QBrush shadow_color);
   drawPath (subtracted ring_path ring_inner_path); restore;
   setPen (QPen (inner_ring_pen_color self) (Fin 1));
   setBrush (brush_of (inner_ring_brush_color self));
   drawPath ring_path]
  ++ match inner_circle_brush_color self with
     | Some c => [setPen NoPen; setBrush (QBrush c);
                  drawEllipse (mkPointF (Fin 0) (Fin 0)) (Fin 5) (Fin 5)]
     | None => []
     end
  ++ [restore].

(** The calls of a paint before the needle: they do not read the value. *)
Definition dial_calls (self : CircularGauge) (rect : QRect)
  : list painter_call :=
  let r := radius_of self rect in
  [QPainter_on_widget; setRenderHint_Antialiasing;
   translate_QPoint (fst (center rect)) (snd (center rect))]
  ++ outer_arc_calls self r
  ++ ticks_calls self r
  ++ numbers_calls self r
  ++ outer_arc2_calls self r.

(** All the calls of one paint, the needle being at [angle]. *)
Definition frame_of (self : CircularGauge) (rect : QRect) (angle : double)
  : list painter_call :=
  dial_calls self rect ++ needle_calls self (radius_of self rect) angle.

(** What the needle and the ring put on the screen. *)
Definition needle_shapes (self : CircularGauge) (r : double)
  : list painter_call :=
  let needle :=
    [mkPointF (Fin 0) (Fin (-(5)));
     mkPointF (sub r (Fin 20)) (Fin 0);
     mkPointF (Fin 0) (Fin 5)] in
  let ring_path :=
    Path [addEllipse (mkPointF (Fin 0) (Fin 0)) (Fin 12) (Fin 12)] in
  let ring_inner_path :=
    Path [addEllipse (mkPointF (Fin 0) (Fin 0)) (Fin 5) (Fin 5)] in
  [drawPolygon needle; drawPolygon needle;
   drawPath (subtracted ring_path ring_inner_path); drawPath ring_path]
  ++ match inner_circle_brush_color self with
     | Some c => [drawEllipse (mkPointF (Fin 0) (Fin 0)) (Fin 5) (Fin 5)]
     | None => []
     end.

End Painting.

(** *** Notions the statements use *)

(** A rational that is the value of a finite double. *)
Definition is_double (q : Q) : Prop :=
  representable q /\ Qabs q < pow2 1024.

Definition finite_double (a : double) : Prop :=
  exists q, a = Fin q /\ is_double q.

(** The needle angle of [drawNeedle] for the value [x], on the rationals
    the doubles stand for: [start_angle + ((x - min_value) / (max_value -
    min_value)) * angle_range], rounded after each operation. *)
Definition angle_of (m M s R x : Q) : Q :=
  rnd (s + rnd (rnd (rnd (x - m) / rnd (M - m)) * R)).

(** What [setValue] stores for [v] between the finite bounds [m < M]. *)
Definition clamped (m M : Q) (v : double) : Q :=
  match v with
  | Fin q => if Qle_bool m q then (if Qle_bool q M then q else M) else m
  | Inf true => m
  | _ => M
  end.

(** The needle angle after [setValue(v)] on the gauge built from [a]. *)
Definition needle_after (a : kwargs) (v : double) : outcome double :=
  obind (__init__ a) (fun g =>
  needle_angle (gauge (snd (setValue v (new_widget g))))).

(** A run of [setValue] calls, the first of the list first. *)
Fixpoint setValues (vs : list double) (w : Widget) : Widget :=
  match vs with
  | [] => w
  | v :: vs' => setValues vs' (snd (setValue v w))
  end.

(** [text] is the value [q] with no decimals: the digits of an integer
    nearest to [q], the even one of the two when [q] is half-way, after a
    minus sign when [q] is negative. *)
Definition shows_rounded (q : Q) (text : string) : Prop :=
  exists n : Z,
    Qabs (q - inject_Z n) <= 1 # 2 /\
    (Qabs (q - inject_Z n) == 1 # 2 -> Z.even n = true) /\
    text = ((if Qlt_le_dec q 0 then "-" else "")
            ++ NilZero.string_of_uint (N.to_uint (Z.abs_N n)))%string.

(** [m] returns [a] after the calls [ops], whatever was executed before, on
    a toolkit that does not fail. *)
Definition emits {A} (m : Paint A) (a : A) (ops : list painter_call)
  : Prop :=
  forall tr, m no_fault tr = (Return a, tr ++ ops).

(** On the toolkit [tk], whatever [m] raises satisfies [P]. *)
Definition raises_only {A} (tk : toolkit) (P : exn -> Prop) (m : Paint A)
  : Prop :=
  forall tr e tr', m tk tr = (Raise e, tr') -> P e.

(** *** Gauges and values used as examples *)

(** The demo gauge with the sweep from -210.5 to 30.1 degrees. *)
Definition skewed_kwargs : kwargs :=
  {| arg_min_value := Fin 0;
     arg_max_value := Fin 30;
     arg_value := Fin 0;
     arg_steps := 15;
     arg_start_angle := Fin (-(421 # 2));
     arg_end_angle := Fin (4236198399495373 # 140737488355328);
     arg_outer_circle_pen_color := ArgQColor (QColor_rgb 0 150 255);
     arg_outer_circle_brush_color := Some (ArgStr "white");
     arg_outer_circle_thickness := 20;
     arg_inner_ring_pen_color := ArgQColor (QColor_rgb 0 150 255);
     arg_inner_ring_brush_color := Some (ArgQColor (QColor_rgb 0 150 255));
     arg_inner_circle_brush_color := Some (ArgStr "white");
     arg_number_font_size := 14;
     arg_number_font_family := "Arial" |}.

(** The gauge the constructor returns for the arguments [a] when its guard
    lets them through. *)
Definition gauge_of_args (a : kwargs) : CircularGauge :=
  match __init__ a with
  | Return self => self
  | Raise _ =>
      {| min_value := NaN; max_value := NaN; value := NaN; steps := 0;
         start_angle := NaN; end_angle := NaN; angle_range := NaN;
         outer_circle_thickness := 0; minimum_size := (0, 0)%Z;
         outer_circle_pen_color := QColor_global black;
         outer_circle_brush_color := None;
         inner_ring_pen_color := QColor_global black;
         inner_ring_brush_color := None;
         inner_circle_brush_color := None;
         number_font_size := 0; number_font_family := EmptyString |}
  end.

Definition demo_gauge : CircularGauge := gauge_of_args demo_kwargs.

(** The default gauge with one step and the sweep from -2^1023 to 2^1023
    degrees, two finite doubles whose difference is not one. *)
Definition wide_kwargs : kwargs :=
  {| arg_min_value := Fin 0;
     arg_max_value := Fin 100;
     arg_value := Fin 50;
     arg_steps := 1;
     arg_start_angle := Fin (- inject_Z (2 ^ 1023));
     arg_end_angle := Fin (inject_Z (2 ^ 1023));
     arg_outer_circle_pen_color := ArgGlobal black;
     arg_outer_circle_brush_color := None;
     arg_outer_circle_thickness := 12;
     arg_inner_ring_pen_color := ArgGlobal black;
     arg_inner_ring_brush_color := Some (ArgGlobal white);
     arg_inner_circle_brush_color := None;
     arg_number_font_size := 10;
     arg_number_font_family := "Arial" |}.

(** The default gauge with one step, from -2.9 to 2.5 (the doubles nearest
    to them). *)
Definition odd_kwargs : kwargs :=
  {| arg_min_value := Fin (-(6530219459687219 # 2251799813685248));
     arg_max_value := Fin (5 # 2);
     arg_value := Fin 0;
     arg_steps := 1;
     arg_start_angle := Fin (-(210));
     arg_end_angle := Fin 30;
     arg_outer_circle_pen_color := ArgGlobal black;
     arg_outer_circle_brush_color := None;
     arg_outer_circle_thickness := 12;
     arg_inner_ring_pen_color := ArgGlobal black;
     arg_inner_ring_brush_color := Some (ArgGlobal white);
     arg_inner_circle_brush_color := None;
     arg_number_font_size := 10;
     arg_number_font_family := "Arial" |}.


(** A toolkit that cannot draw text. *)
Definition no_text : toolkit :=
  fun _ c =>
    match c with
    | drawText _ _ => Some (RuntimeError "no font")
    | _ => None
    end.

(** The doubles nearest to 1e-20 and 2e-20. *)
Definition tiny1 : double :=
  Fin (6646139978924579 # 664613997892457936451903530140172288).
Definition tiny2 : double :=
  Fin (6646139978924579 # 332306998946228968225951765070086144).

(** *** Hardware doubles *)

(** The double a hardware float of Rocq stands for. *)
Definition of_SF (x : SpecFloat.spec_float) : double :=
  match x with
  | SpecFloat.S754_zero _ => Fin 0
  | SpecFloat.S754_infinity s => Inf s
  | SpecFloat.S754_nan => NaN
  | SpecFloat.S754_finite s m e =>
      Fin (Qred ((if s then -(1) else 1) * inject_Z (Zpos m) * pow2 e))
  end.

Definition of_prim (x : PrimFloat.float) : double :=
  of_SF (FloatOps.Prim2SF x).

End B64.

Set Implicit Arguments.

(* ================================================================= *)
(** ** The drawing code on rationals *)

Section Drawing.

(** [math.cos], [math.sin] and [math.radians] are taken as given. *)
Variables math_cos math_sin math_radians : Q -> Q.

Local Open Scope paint_scope.

(** The path both arcs stroke. *)
Definition arc_path (self : CircularGauge) (radius : Q) : QPainterPath :=
  let arc_rect := mkRectF (- radius) (- radius) (2 * radius) (2 * radius) in
  let start_angle_normalized := normalize_angle (start_angle self) in
  let startAngle := - start_angle_normalized in
  let spanAngle := - angle_range self in
  Path [arcMoveTo arc_rect startAngle; arcTo arc_rect startAngle spanAngle].

Definition drawOuterArc (self : CircularGauge) (radius : Q) : Paint unit :=
  let path := arc_path self radius in
  call (setPen (QPen (outer_circle_pen_color self)
                     (outer_circle_thickness self))) ;;
  match outer_circle_brush_color self with
  | Some c => call (setBrush (QBrush c))
  | None => call (setBrush NoBrush)
  end ;;
  call (drawPath path) ;;
  call restore.

Definition drawOuterArc2 (self : CircularGauge) (radius : Q) : Paint unit :=
  let path := arc_path self radius in
  call (setPen (QPen (QColor_rgba 200 200 200 200)
                     (outer_circle_thickness self / 2))) ;;
  call (setBrush NoBrush) ;;
  call (drawPath path) ;;
  call restore.

(** One pass of the loop of [drawTicks]. *)
Definition tick (self : CircularGauge) (radius angle_step : Q) (i : Z)
  : Paint unit :=
  call (setPen (QPen (QColor_global red) 6)) ;;
  let angle := start_angle self + inject_Z i * angle_step in
  let rad := math_radians angle in
  let x1 := (radius - 10) * math_cos rad in
  let y1 := (radius - 10) * math_sin rad in
  let x2 := radius * math_cos rad in
  let y2 := radius * math_sin rad in
  call (drawLine (mkPointF x1 y1) (mkPointF x2 y2)) ;;
  call restore.

Definition drawTicks (self : CircularGauge) (radius : Q) : Paint unit :=
  call save ;;
  angle_step <- lift (Py.div (angle_range self) (inject_Z (steps self))) ;;
  for_each (Py.range (steps self + 1)) (tick self radius angle_step) ;;
  call restore.

(** One pass of the loop of [drawNumbers]. *)
Definition number (self : CircularGauge) (radius angle_step : Q) (i : Z)
  : Paint unit :=
  let angle := start_angle self + inject_Z i * angle_step in
  let rad := math_radians angle in
  q <- lift (Py.div (inject_Z i * (max_value self - min_value self))
                    (inject_Z (steps self))) ;;
  let val := min_value self + q in
  let text := Py.format_0f val in
  let text_rect := mkRectF (-(15)) (-(15)) 34 34 in
  let text_x := (radius - 25) * math_cos rad in
  let text_y := (radius - 25) * math_sin rad in
  call save ;;
  call (translate text_x text_y) ;;
  call (rotate (angle + 90)) ;;
  call (drawText text_rect text) ;;
  call restore.

Definition drawNumbers (self : CircularGauge) (radius : Q) : Paint unit :=
  call save ;;
  call (setPen (QPen (QColor_rgb 0 150 255) 2)) ;;
  angle_step <- lift (Py.div (angle_range self) (inject_Z (steps self))) ;;
  call (setFont (number_font_family self) (number_font_size self)) ;;
  for_each (Py.range (steps self + 1)) (number self radius angle_step) ;;
  call restore.

Definition drawNeedle (self : CircularGauge) (radius : Q) : Paint unit :=
  call save ;;
  angle <- lift (needle_angle self) ;;
  let needle := [mkPointF 0 (-(5)); mkPointF (radius - 20) 0; mkPointF 0 5] in
  (* the shadow of the needle *)
  call save ;;
  call (rotate angle) ;;
  call (translate 2 2) ;;
  let shadow_color := QColor_rgba 0 0 0 80 in
  call (setPen NoPen) ;;
  call (setBrush (QBrush shadow_color)) ;;
  call (drawPolygon needle) ;;
  call restore ;;
  (* the needle *)
  call save ;;
  call (rotate angle) ;;
  call (setPen (QPen (QColor_rgb 0 150 255) 1)) ;;
  call (setBrush (QBrush (QColor_rgb 0 150 255))) ;;
  call (drawPolygon needle) ;;
  call restore ;;
  (* the shadow of the ring *)
  call save ;;
  call (rotate angle) ;;
  call (translate 2 2) ;;
  call (setPen NoPen) ;;
  call (setBrush (QBrush shadow_color)) ;;
  let center_circle_radius_outer := 12 in
  let center_circle_radius_inner := 5 in
  let ring_path :=
    Path [addEllipse (mkPointF 0 0) center_circle_radius_outer
                     center_circle_radius_outer] in
  let ring_inner_path :=
    Path [addEllipse (mkPointF 0 0) center_circle_radius_inner
                     center_circle_radius_inner] in
  let ring_shadow_path := subtracted ring_path ring_inner_path in
  call (drawPath ring_shadow_path) ;;
  call restore ;;
  (* the ring *)
  call (setPen (QPen (inner_ring_pen_color self) 1)) ;;
  match inner_ring_brush_color self with
  | Some c => call (setBrush (QBrush c))
  | None => call (setBrush NoBrush)
  end ;;
  call (drawPath ring_path) ;;
  (* the inner circle *)
  match inner_circle_brush_color self with
  | Some c =>
      call (setPen NoPen) ;;
      call (setBrush (QBrush c)) ;;
      call (drawEllipse (mkPointF 0 0) center_circle_radius_inner
                        center_circle_radius_inner)
  | None => ret tt
  end ;;
  call restore.

(** The block under [try:] in [paintEvent]. *)
Definition paint_body (self : CircularGauge) (rect : QRect) : Paint unit :=
  call QPainter_on_widget ;;
  call setRenderHint_Antialiasing ;;
  let center := center rect in
  let radius :=
    inject_Z (Py.min (width rect) (height rect)) / 2
    - outer_circle_thickness self in
  call (translate (inject_Z (fst center)) (inject_Z (snd center))) ;;
  drawOuterArc self radius ;;
  drawTicks self radius ;;
  drawNumbers self radius ;;
  drawOuterArc2 self radius ;;
  drawNeedle self radius.

(* --------------------------------------------------------------- *)
(** *** The widget in its host *)

(** A line written by [print]. *)
Inductive printed : Type := Error_in_paintEvent (e : exn).

(** The widget with what its methods leave behind: the redraws requested by
    [update()], the calls each paint executed on its painter (one list per
    frame, the oldest first) and the lines printed. *)
Record Widget : Type := mkWidget {
  gauge : CircularGauge;
  update_requests : nat;
  frames : list (list painter_call);
  stdout : list printed
}.

Definition new_widget (self : CircularGauge) : Widget :=
  {| gauge := self; update_requests := 0; frames := []; stdout := [] |}.

(** [CircularGauge(...)]. *)
Definition CircularGauge_new (a : kwargs) : outcome Widget :=
  obind (__init__ a) (fun self => Return (new_widget self)).

(** [setValue]: clamp, store, ask for a redraw. *)
Definition setValue (v : Q) (w : Widget) : outcome Widget :=
  let self := gauge w in
  let self' :=
    if Py.lt v (min_value self) then set_value_attr self (min_value self)
    else if Py.gt v (max_value self) then set_value_attr self (max_value self)
    else set_value_attr self v in
  Return {| gauge := self';
            update_requests := S (update_requests w);
            frames := frames w;
            stdout := stdout w |}.

(** [paintEvent]: the body runs on a new painter; an exception it raises is
    caught and printed. *)
Definition paintEvent (tk : toolkit) (rect : QRect) (w : Widget)
  : outcome Widget :=
  match paint_body (gauge w) rect tk [] with
  | (Return _, calls) =>
      Return {| gauge := gauge w;
                update_requests := update_requests w;
                frames := frames w ++ [calls];
                stdout := stdout w |}
  | (Raise e, calls) =>
      Return {| gauge := gauge w;
                update_requests := update_requests w;
                frames := frames w ++ [calls];
                stdout := stdout w ++ [Error_in_paintEvent e] |}
  end.

(** The gauge of the demo window. *)
Definition demo_kwargs : kwargs :=
  {| arg_min_value := 0;
     arg_max_value := 30;
     arg_value := 0;
     arg_steps := 15;
     arg_start_angle := -(210);
     arg_end_angle := 30;
     arg_outer_circle_pen_color := ArgQColor (QColor_rgb 0 150 255);
     arg_outer_circle_brush_color := Some (ArgStr "white");
     arg_outer_circle_thickness := 20;
     arg_inner_ring_pen_color := ArgQColor (QColor_rgb 0 150 255);
     arg_inner_ring_brush_color := Some (ArgQColor (QColor_rgb 0 150 255));
     arg_inner_circle_brush_color := Some (ArgStr "white");
     arg_number_font_size := 14;
     arg_number_font_family := "Arial" |}.

(* --------------------------------------------------------------- *)
(** *** Definitions the statements use *)

(** The needle angle as the specification words it: the linear map of
    [min_value .. max_value] onto the sweep of the gauge. *)
Definition needleAngle_spec (self : CircularGauge) (v : Q) : Q :=
  start_angle self
  + ((v - min_value self) / (max_value self - min_value self))
    * angle_range self.

Definition is_drawLine (c : painter_call) : bool :=
  match c with drawLine _ _ => true | _ => false end.

Definition is_drawText (c : painter_call) : bool :=
  match c with drawText _ _ => true | _ => false end.

(** [radius] of [paintEvent]. *)
Definition radius_of (self : CircularGauge) (rect : QRect) : Q :=
  inject_Z (Py.min (width rect) (height rect)) / 2
  - outer_circle_thickness self.

(** The tick of index [i] as the specification words it: the segment from
    radius [r - 10] to radius [r] at the angle
    [start_angle + i * (angle_range / steps)]. *)
Definition tick_segment (self : CircularGauge) (r : Q) (i : Z)
  : painter_call :=
  let angle :=
    start_angle self
    + inject_Z i * (angle_range self / inject_Z (steps self)) in
  let rad := math_radians angle in
  drawLine (mkPointF ((r - 10) * math_cos rad) ((r - 10) * math_sin rad))
           (mkPointF (r * math_cos rad) (r * math_sin rad)).

(** The value the label of index [i] shows, before formatting. *)
Definition label_value (self : CircularGauge) (i : Z) : Q :=
  min_value self
  + inject_Z i * (max_value self - min_value self) / inject_Z (steps self).

(** The label of index [i]: the value formatted with no decimals, in the
    square the code centres the text in. *)
Definition label_text (self : CircularGauge) (i : Z) : painter_call :=
  drawText (mkRectF (-(15)) (-(15)) 34 34)
           (Py.format_0f (label_value self i)).

(** [m] returns [a] after the calls [ops], whatever was executed before. *)
Definition emits {A} (m : Paint A) (a : A) (ops : list painter_call)
  : Prop :=
  forall tr, m no_fault tr = (Return a, tr ++ ops).

(** The calls of one tick, of one label, and of each helper. *)
Definition tick_calls (self : CircularGauge) (r : Q) (i : Z)
  : list painter_call :=
  [setPen (QPen (QColor_global red) 6); tick_segment self r i; restore].

Definition number_calls (self : CircularGauge) (r : Q) (i : Z)
  : list painter_call :=
  let angle :=
    start_angle self
    + inject_Z i * (angle_range self / inject_Z (steps self)) in
  let rad := math_radians angle in
  [save;
   translate ((r - 25) * math_cos rad) ((r - 25) * math_sin rad);
   rotate (angle + 90);
   label_text self i;
   restore].

Definition brush_of (c : option QColor) : brush :=
  match c with Some c => QBrush c | None => NoBrush end.

Definition outer_arc_calls (self : CircularGauge) (r : Q)
  : list painter_call :=
  [setPen (QPen (outer_circle_pen_color self) (outer_circle_thickness self));
   setBrush (brush_of (outer_circle_brush_color self));
   drawPath (arc_path self r);
   restore].

Definition outer_arc2_calls (self : CircularGauge) (r : Q)
  : list painter_call :=
  [setPen (QPen (QColor_rgba 200 200 200 200)
                (outer_circle_thickness self / 2));
   setBrush NoBrush;
   drawPath (arc_path self r);
   restore].

Definition ticks_calls (self : CircularGauge) (r : Q)
  : list painter_call :=
  [save] ++ flat_map (tick_calls self r) (Py.range (steps self + 1))
  ++ [restore].

Definition numbers_calls (self : CircularGauge) (r : Q)
  : list painter_call :=
  [save; setPen (QPen (QColor_rgb 0 150 255) 2);
   setFont (number_font_family self) (number_font_size self)]
  ++ flat_map (number_calls self r) (Py.range (steps self + 1))
  ++ [restore].

Definition needle_calls (self : CircularGauge) (r angle : Q)
  : list painter_call :=
  let needle := [mkPointF 0 (-(5)); mkPointF (r - 20) 0; mkPointF 0 5] in
  let shadow_color := QColor_rgba 0 0 0 80 in
  let ring_path := Path [addEllipse (mkPointF 0 0) 12 12] in
  let ring_inner_path := Path [addEllipse (mkPointF 0 0) 5 5] in
  [save;
   save; rotate angle; translate 2 2; setPen NoPen;
   setBrush (QBrush shadow_color); drawPolygon needle; restore;
   save; rotate angle; setPen (QPen (QColor_rgb 0 150 255) 1);
   setBrush (QBrush (QColor_rgb 0 150 255)); drawPolygon needle; restore;
   save; rotate angle; translate 2 2; setPen NoPen;
   setBrush (QBrush shadow_color);
   drawPath (subtracted ring_path ring_inner_path); restore;
   setPen (QPen (inner_ring_pen_color self) 1);
   setBrush (brush_of (inner_ring_brush_color self));
   drawPath ring_path]
  ++ match inner_circle_brush_color self with
     | Some c => [setPen NoPen; setBrush (QBrush c);
                  drawEllipse (mkPointF 0 0) 5 5]
     | None => []
     end
  ++ [restore].

(** All the calls of one paint, the needle being at [angle]. *)
Definition frame_of (self : CircularGauge) (rect : QRect) (angle : Q)
  : list painter_call :=
  let r := radius_of self rect in
  [QPainter_on_widget; setRenderHint_Antialiasing;
   translate (inject_Z (fst (center rect))) (inject_Z (snd (center rect)))]
  ++ outer_arc_calls self r
  ++ ticks_calls self r
  ++ numbers_calls self r
  ++ outer_arc2_calls self r
  ++ needle_calls self r angle.

(* --------------------------------------------------------------- *)
(** *** Concrete gauges, widgets and toolkits *)

(** The gauge the constructor builds from [demo_kwargs]. *)
Definition demo_gauge : CircularGauge :=
  {| min_value := 0;
     max_value := 30;
     value := 0;
     steps := 15;
     start_angle := -(210);
     end_angle := 30;
     angle_range := 30 - -(210);
     outer_circle_thickness := 20;
     minimum_size := (200, 200)%Z;
     outer_circle_pen_color := QColor_rgb 0 150 255;
     outer_circle_brush_color := Some (QColor_name "white");
     inner_ring_pen_color := QColor_rgb 0 150 255;
     inner_ring_brush_color := Some (QColor_rgb 0 150 255);
     inner_circle_brush_color := Some (QColor_name "white");
     number_font_size := 14;
     number_font_family := "Arial" |}.

Definition demo_widget : Widget := new_widget demo_gauge.

(** The arguments of the demo with another number of steps. *)
Definition demo_with_steps (n : Z) : kwargs :=
  {| arg_min_value := 0;
     arg_max_value := 30;
     arg_value := 0;
     arg_steps := n;
     arg_start_angle := -(210);
     arg_end_angle := 30;
     arg_outer_circle_pen_color := ArgQColor (QColor_rgb 0 150 255);
     arg_outer_circle_brush_color := Some (ArgStr "white");
     arg_outer_circle_thickness := 20;
     arg_inner_ring_pen_color := ArgQColor (QColor_rgb 0 150 255);
     arg_inner_ring_brush_color := Some (ArgQColor (QColor_rgb 0 150 255));
     arg_inner_circle_brush_color := Some (ArgStr "white");
     arg_number_font_size := 14;
     arg_number_font_family := "Arial" |}.

(** A gauge no constructor call returns: both bounds are [5]. *)
Definition degenerate_gauge : CircularGauge :=
  {| min_value := 5;
     max_value := 5;
     value := 5;
     steps := 10;
     start_angle := -(210);
     end_angle := 30;
     angle_range := 240;
     outer_circle_thickness := 12;
     minimum_size := (200, 200)%Z;
     outer_circle_pen_color := QColor_global black;
     outer_circle_brush_color := None;
     inner_ring_pen_color := QColor_global black;
     inner_ring_brush_color := Some (QColor_global white);
     inner_circle_brush_color := None;
     number_font_size := 10;
     number_font_family := "Arial" |}.

(** A toolkit that fails at the first text it is asked to draw. *)
Definition no_text : toolkit :=
  fun _ c =>
    match c with
    | drawText _ _ => Some (RuntimeError "no font")
    | _ => None
    end.

(* --------------------------------------------------------------- *)
(** *** The rest of the class and the demo window *)



(** The slider of the demo window: its range and its position. *)
Record QSlider : Type := mkSlider {
  minimum : Z;
  maximum : Z;
  position : Z
}.

(** The demo window: the gauge and the slider. *)
Record Windows : Type := mkWindows {
  win_gauge : Widget;
  slider : QSlider
}.

(** [Windows.__init__]: the gauge of [demo_kwargs], a slider from 0 to 30
    at 0. *)
Definition Windows_new : outcome Windows :=
  obind (CircularGauge_new demo_kwargs) (fun g =>
  Return {| win_gauge := g;
            slider := {| minimum := 0; maximum := 30; position := 0 |} |}).

(** [Windows.updateVoltage]: the slot of the slider's [valueChanged]. *)
Definition updateVoltage (value : Z) (self : Windows) : outcome Windows :=
  obind (setValue (inject_Z value) (win_gauge self)) (fun g =>
  Return {| win_gauge := g; slider := slider self |}).

(** A run of [setValue] calls, the first of the list first. *)
Fixpoint setValues (vs : list Q) (w : Widget) : outcome Widget :=
  match vs with
  | [] => Return w
  | v :: vs' => obind (setValue v w) (setValues vs')
  end.

(** The angle of the tick of index [i] in [drawTicks] and [drawNumbers]. *)
Definition tick_angle (self : CircularGauge) (i : Z) : Q :=
  start_angle self + inject_Z i * (angle_range self / inject_Z (steps self)).



(** The calls that put something on the screen. *)
Definition is_draw (c : painter_call) : bool :=
  match c with
  | drawLine _ _ | drawText _ _ | drawPath _ | drawPolygon _
  | drawEllipse _ _ _ => true
  | _ => false
  end.



(** The three shapes of the needle and its ring, and the disc of the hole
    when the gauge has a colour for it. *)
Definition needle_shapes (self : CircularGauge) (r : Q)
  : list painter_call :=
  let needle := [mkPointF 0 (-(5)); mkPointF (r - 20) 0; mkPointF 0 5] in
  let ring_path := Path [addEllipse (mkPointF 0 0) 12 12] in
  let ring_inner_path := Path [addEllipse (mkPointF 0 0) 5 5] in
  [drawPolygon needle; drawPolygon needle;
   drawPath (subtracted ring_path ring_inner_path);
   drawPath ring_path]
  ++ match inner_circle_brush_color self with
     | Some _ => [drawEllipse (mkPointF 0 0) 5 5]
     | None => []
     end.

(** The window [Windows_new] returns. *)
Definition demo_window : Windows :=
  {| win_gauge := demo_widget;
     slider := {| minimum := 0; maximum := 30; position := 0 |} |}.

(** The demo gauge with another number of steps. *)
Definition demo_gauge_with_steps (n : Z) : CircularGauge :=
  {| min_value := 0;
     max_value := 30;
     value := 0;
     steps := n;
     start_angle := -(210);
     end_angle := 30;
     angle_range := 30 - -(210);
     outer_circle_thickness := 20;
     minimum_size := (200, 200)%Z;
     outer_circle_pen_color := QColor_rgb 0 150 255;
     outer_circle_brush_color := Some (QColor_name "white");
     inner_ring_pen_color := QColor_rgb 0 150 255;
     inner_ring_brush_color := Some (QColor_rgb 0 150 255);
     inner_circle_brush_color := Some (QColor_name "white");
     number_font_size := 14;
     number_font_family := "Arial" |}.



(* =============================================================== *)
(** ** Properties *)

Local Close Scope paint_scope.

(** *** The comparisons *)

Lemma lt_true (a b : Q) : Py.lt a b = true <-> a < b.
Proof.
  unfold Py.lt. rewrite negb_true_iff. split; intro H.
  - apply Qnot_le_lt. intro L. apply Qle_bool_iff in L. congruence.
  - destruct (Qle_bool b a) eqn:E; [|reflexivity].
    apply Qle_bool_iff in E. exfalso. exact (Qlt_not_le _ _ H E).
Qed.

Lemma lt_false (a b : Q) : Py.lt a b = false <-> b <= a.
Proof.
  unfold Py.lt. rewrite negb_false_iff. apply Qle_bool_iff.
Qed.

Lemma gt_true (a b : Q) : Py.gt a b = true <-> b < a.
Proof. apply (lt_true b a). Qed.

Lemma gt_false (a b : Q) : Py.gt a b = false <-> a <= b.
Proof. apply (lt_false b a). Qed.

Lemma ge_true (a b : Q) : Py.ge a b = true <-> b <= a.
Proof. apply Qle_bool_iff. Qed.

Lemma ge_false (a b : Q) : Py.ge a b = false <-> a < b.
Proof.
  unfold Py.ge. split; intro H.
  - apply Qnot_le_lt. intro L. apply Qle_bool_iff in L. congruence.
  - destruct (Qle_bool b a) eqn:E; [|reflexivity].
    apply Qle_bool_iff in E. exfalso. exact (Qlt_not_le _ _ H E).
Qed.

Lemma eq_true (a b : Q) : Py.eq a b = true <-> a == b.
Proof. apply Qeq_bool_iff. Qed.

Lemma eq_false (a b : Q) : Py.eq a b = false <-> ~ a == b.
Proof.
  unfold Py.eq. split; intro H.
  - intro E. apply Qeq_bool_iff in E. congruence.
  - destruct (Qeq_bool a b) eqn:E; [|reflexivity].
    apply Qeq_bool_iff in E. contradiction.
Qed.

Lemma div_nonzero (a b : Q) : ~ b == 0 -> Py.div a b = Return (a / b).
Proof.
  intro H. unfold Py.div. apply eq_false in H. rewrite H. reflexivity.
Qed.

Lemma div_zero (a b : Q) : b == 0 -> Py.div a b = Raise ZeroDivisionError.
Proof.
  intro H. unfold Py.div. apply eq_true in H. rewrite H. reflexivity.
Qed.

(** *** Rounding and formatting *)

(** The integer [.0f] prints is a nearest one. *)
Lemma round_half_even_nearest (x : Q) :
  Qabs (x - inject_Z (Py.round_half_even x)) <= 1 # 2.
Proof.
  pose proof (Qfloor_le x) as Hlo. pose proof (Qlt_floor x) as Hhi.
  apply Qabs_Qle_condition. unfold Py.round_half_even.
  rewrite inject_Z_plus in *. change (inject_Z 1) with 1 in *.
  destruct (Qcompare (x - inject_Z (Qfloor x)) (1 # 2)) eqn:E.
  - apply Qeq_alt in E.
    destruct (Z.even (Qfloor x)); [|rewrite inject_Z_plus];
      change (inject_Z 1) with 1;
      generalize dependent (inject_Z (Qfloor x)); intros; lra.
  - apply Qlt_alt in E.
    generalize dependent (inject_Z (Qfloor x)); intros; lra.
  - apply Qgt_alt in E. rewrite inject_Z_plus. change (inject_Z 1) with 1.
    generalize dependent (inject_Z (Qfloor x)); intros; lra.
Qed.

(** Half-way between two integers, it is the even one. *)
Lemma round_half_even_tie (x : Q) :
  x - inject_Z (Qfloor x) == 1 # 2 ->
  Z.even (Py.round_half_even x) = true.
Proof.
  intro H. unfold Py.round_half_even.
  apply Qeq_alt in H. rewrite H.
  destruct (Z.even (Qfloor x)) eqn:E; [exact E|].
  rewrite Z.add_1_r, Z.even_succ, <- Z.negb_even, E. reflexivity.
Qed.

Example format_0f_30 : Py.format_0f 30 = "30"%string.
Proof. reflexivity. Qed.

Example format_0f_half_down : Py.format_0f (5 # 2) = "2"%string.
Proof. reflexivity. Qed.

Example format_0f_half_up : Py.format_0f (7 # 2) = "4"%string.
Proof. reflexivity. Qed.

Example format_0f_negative : Py.format_0f (-(3 # 2)) = "-2"%string.
Proof. reflexivity. Qed.

Example format_0f_negative_zero : Py.format_0f (-(2 # 5)) = "-0"%string.
Proof. reflexivity. Qed.

Example normalize_angle_demo : normalize_angle (-(210)) == 150.
Proof. reflexivity. Qed.

Example center_of_empty : center (mkRect 0 0) = (0, 0)%Z.
Proof. reflexivity. Qed.

Example init_demo : __init__ demo_kwargs = Return demo_gauge.
Proof. reflexivity. Qed.

Example init_defaults_value :
  obind (__init__ defaults) (fun self => Return (value self)) = Return 50.
Proof. reflexivity. Qed.

(** *** The setter *)

(** The three cases of [setValue], one at a time. *)
Lemma setValue_below (v : Q) (w : Widget) :
  v < min_value (gauge w) ->
  setValue v w =
    Return {| gauge := set_value_attr (gauge w) (min_value (gauge w));
              update_requests := S (update_requests w);
              frames := frames w;
              stdout := stdout w |}.
Proof.
  intro H. unfold setValue. apply lt_true in H. rewrite H. reflexivity.
Qed.

Lemma setValue_above (v : Q) (w : Widget) :
  min_value (gauge w) <= v -> max_value (gauge w) < v ->
  setValue v w =
    Return {| gauge := set_value_attr (gauge w) (max_value (gauge w));
              update_requests := S (update_requests w);
              frames := frames w;
              stdout := stdout w |}.
Proof.
  intros H1 H2. unfold setValue.
  apply lt_false in H1. apply gt_true in H2. rewrite H1, H2. reflexivity.
Qed.

Lemma setValue_inside (v : Q) (w : Widget) :
  min_value (gauge w) <= v -> v <= max_value (gauge w) ->
  setValue v w =
    Return {| gauge := set_value_attr (gauge w) v;
              update_requests := S (update_requests w);
              frames := frames w;
              stdout := stdout w |}.
Proof.
  intros H1 H2. unfold setValue.
  apply lt_false in H1. apply gt_false in H2. rewrite H1, H2. reflexivity.
Qed.

(** [setValue] always returns, and the gauge it leaves is the old one with
    a new [value]. *)
Lemma setValue_returns (v : Q) (w : Widget) :
  exists x,
    setValue v w =
      Return {| gauge := set_value_attr (gauge w) x;
                update_requests := S (update_requests w);
                frames := frames w;
                stdout := stdout w |}.
Proof.
  unfold setValue.
  destruct (Py.lt v (min_value (gauge w)));
    [|destruct (Py.gt v (max_value (gauge w)))]; eexists; reflexivity.
Qed.

(** C1: on a gauge with [min_value < max_value], [setValue v] returns
    without raising, and the value it stores is [min_value] when
    [v < min_value], [max_value] when [v > max_value], and [v] itself when
    [min_value <= v <= max_value]. *)
Theorem setValue_clamps (w : Widget) (v : Q) :
  min_value (gauge w) < max_value (gauge w) ->
  exists w',
    setValue v w = Return w' /\
    (v < min_value (gauge w) -> value (gauge w') = min_value (gauge w)) /\
    (max_value (gauge w) < v -> value (gauge w') = max_value (gauge w)) /\
    (min_value (gauge w) <= v <= max_value (gauge w) ->
     value (gauge w') = v).
Proof.
  intro Hrange.
  destruct (Qlt_le_dec v (min_value (gauge w))) as [Hlo | Hlo].
  - eexists. split; [apply setValue_below; exact Hlo|]. cbn.
    repeat split; intros; try reflexivity; exfalso; lra.
  - destruct (Qlt_le_dec (max_value (gauge w)) v) as [Hhi | Hhi].
    + eexists. split; [apply setValue_above; assumption|]. cbn.
      repeat split; intros; try reflexivity; exfalso; lra.
    + eexists. split; [apply setValue_inside; assumption|]. cbn.
      repeat split; intros; try reflexivity; exfalso; lra.
Qed.

(** Whatever the bounds are worth, a call of [setValue] on a gauge with
    [min_value <= max_value] leaves the value between them. *)
Lemma setValue_in_range (w w' : Widget) (v : Q) :
  min_value (gauge w) <= max_value (gauge w) ->
  setValue v w = Return w' ->
  min_value (gauge w') <= value (gauge w') <= max_value (gauge w').
Proof.
  intros Hrange Hset.
  destruct (Qlt_le_dec v (min_value (gauge w))) as [Hlo | Hlo].
  - rewrite setValue_below in Hset by assumption.
    injection Hset as <-. cbn. lra.
  - destruct (Qlt_le_dec (max_value (gauge w)) v) as [Hhi | Hhi].
    + rewrite setValue_above in Hset by assumption.
      injection Hset as <-. cbn. lra.
    + rewrite setValue_inside in Hset by assumption.
      injection Hset as <-. cbn. lra.
Qed.

(** C9: [setValue] changes no attribute of the gauge but [value]: the
    bounds, the steps, the angles, the colours, the thickness and the font
    settings are the ones before the call. *)
Theorem setValue_frame (w : Widget) (v : Q) :
  exists w',
    setValue v w = Return w' /\
    min_value (gauge w') = min_value (gauge w) /\
    max_value (gauge w') = max_value (gauge w) /\
    steps (gauge w') = steps (gauge w) /\
    start_angle (gauge w') = start_angle (gauge w) /\
    end_angle (gauge w') = end_angle (gauge w) /\
    angle_range (gauge w') = angle_range (gauge w) /\
    outer_circle_pen_color (gauge w') = outer_circle_pen_color (gauge w) /\
    outer_circle_brush_color (gauge w')
      = outer_circle_brush_color (gauge w) /\
    inner_ring_pen_color (gauge w') = inner_ring_pen_color (gauge w) /\
    inner_ring_brush_color (gauge w') = inner_ring_brush_color (gauge w) /\
    inner_circle_brush_color (gauge w')
      = inner_circle_brush_color (gauge w) /\
    outer_circle_thickness (gauge w') = outer_circle_thickness (gauge w) /\
    number_font_size (gauge w') = number_font_size (gauge w) /\
    number_font_family (gauge w') = number_font_family (gauge w) /\
    minimum_size (gauge w') = minimum_size (gauge w).
Proof.
  destruct (setValue_returns v w) as [x Hx].
  eexists. split; [exact Hx|]. cbn. repeat split.
Qed.

(** *** The constructor *)

Lemma init_rejects (a : kwargs) :
  arg_max_value a <= arg_min_value a ->
  __init__ a = Raise (ValueError "min_value must be less than max_value").
Proof.
  intro H. unfold __init__. apply ge_true in H. rewrite H. reflexivity.
Qed.

Lemma init_accepts (a : kwargs) :
  arg_min_value a < arg_max_value a ->
  exists self,
    __init__ a = Return self /\
    min_value self = arg_min_value a /\
    max_value self = arg_max_value a /\
    value self = arg_value a /\
    steps self = arg_steps a /\
    start_angle self = arg_start_angle a /\
    end_angle self = arg_end_angle a /\
    angle_range self = arg_end_angle a - arg_start_angle a.
Proof.
  intro H. unfold __init__. apply ge_false in H. rewrite H.
  eexists. split; [reflexivity|]. cbn. repeat split.
Qed.

(** C4: the constructor raises its [ValueError] exactly when
    [min_value >= max_value] (equal bounds and reversed bounds alike), and
    returns a gauge exactly when [min_value < max_value]. *)
Theorem init_raises_iff (a : kwargs) :
  (__init__ a = Raise (ValueError "min_value must be less than max_value")
   <-> arg_max_value a <= arg_min_value a) /\
  ((exists self, __init__ a = Return self)
   <-> arg_min_value a < arg_max_value a) /\
  (arg_min_value a == arg_max_value a -> exists e, __init__ a = Raise e) /\
  (arg_max_value a < arg_min_value a -> exists e, __init__ a = Raise e) /\
  (arg_min_value a < arg_max_value a -> forall e, __init__ a <> Raise e).
Proof.
  repeat split.
  - intro H.
    destruct (Qlt_le_dec (arg_min_value a) (arg_max_value a)) as [L | L];
      [|exact L].
    destruct (init_accepts a L) as [self [E _]]. congruence.
  - apply init_rejects.
  - intros [self H].
    destruct (Qlt_le_dec (arg_min_value a) (arg_max_value a)) as [L | L];
      [exact L|].
    rewrite (init_rejects a L) in H. discriminate.
  - intro L. destruct (init_accepts a L) as [self [E _]]. eauto.
  - intro E. eexists. apply init_rejects. lra.
  - intro L. eexists. apply init_rejects. lra.
  - intros L e H. destruct (init_accepts a L) as [self [E _]]. congruence.
Qed.

(** C2, at the constructor: built with the default bounds [0] and [100]
    and [value=150], the gauge holds [150], which is above [max_value];
    the assignment of the constructor does not clamp. *)
Theorem init_value_not_clamped :
  exists self,
    __init__ {| arg_min_value := 0;
                arg_max_value := 100;
                arg_value := 150;
                arg_steps := 10;
                arg_start_angle := -(210);
                arg_end_angle := 30;
                arg_outer_circle_pen_color := ArgGlobal black;
                arg_outer_circle_brush_color := None;
                arg_outer_circle_thickness := 12;
                arg_inner_ring_pen_color := ArgGlobal black;
                arg_inner_ring_brush_color := Some (ArgGlobal white);
                arg_inner_circle_brush_color := None;
                arg_number_font_size := 10;
                arg_number_font_family := "Arial" |} = Return self /\
    min_value self = 0 /\ max_value self = 100 /\ value self = 150 /\
    ~ (min_value self <= value self <= max_value self).
Proof.
  eexists. split; [reflexivity|]. cbn. repeat split.
  intros [_ H]. revert H. apply Qlt_not_le. reflexivity.
Qed.

(** *** The needle *)

Lemma value_ratio_degenerate (self : CircularGauge) :
  max_value self - min_value self == 0 -> value_ratio self = Return 0.
Proof.
  intro H. unfold value_ratio. apply eq_true in H. rewrite H. reflexivity.
Qed.

Lemma value_ratio_regular (self : CircularGauge) :
  ~ max_value self - min_value self == 0 ->
  value_ratio self =
    Return ((value self - min_value self)
            / (max_value self - min_value self)).
Proof.
  intro H. unfold value_ratio.
  rewrite (div_nonzero _ H). apply eq_false in H. rewrite H. reflexivity.
Qed.

(** The ratio and the angle of the needle are computed on every gauge. *)
Lemma needle_angle_returns (self : CircularGauge) :
  exists r,
    value_ratio self = Return r /\
    needle_angle self = Return (start_angle self + r * angle_range self) /\
    (max_value self - min_value self == 0 -> r = 0) /\
    (~ max_value self - min_value self == 0 ->
     r = (value self - min_value self)
         / (max_value self - min_value self)).
Proof.
  destruct (Qeq_dec (max_value self - min_value self) 0) as [E | N].
  - exists 0. unfold needle_angle.
    rewrite (value_ratio_degenerate self E). cbn.
    repeat split; intros; try reflexivity. contradiction.
  - eexists. unfold needle_angle.
    rewrite (value_ratio_regular self N). cbn.
    repeat split; intros; try reflexivity. contradiction.
Qed.

Lemma needle_angle_regular (self : CircularGauge) (v : Q) :
  min_value self < max_value self ->
  needle_angle (set_value_attr self v) = Return (needleAngle_spec self v).
Proof.
  intro H. unfold needle_angle.
  rewrite value_ratio_regular; cbn; [reflexivity | lra].
Qed.

(** *** What a paint emits when the toolkit does not fail *)







Lemma drawOuterArc_emits (self : CircularGauge) (r : Q) :
  emits (drawOuterArc self r) tt (outer_arc_calls self r).
Proof.
  intro tr. unfold drawOuterArc, outer_arc_calls, brush_of.
  destruct (outer_circle_brush_color self); cbn;
    repeat rewrite <- app_assoc; reflexivity.
Qed.






Lemma drawNeedle_emits (self : CircularGauge) (r angle : Q) :
  needle_angle self = Return angle ->
  emits (drawNeedle self r) tt (needle_calls self r angle).
Proof.
  intros Ha tr. unfold drawNeedle, needle_calls, brush_of.
  unfold bind at 1. cbn [call no_fault].
  unfold bind at 1. unfold lift at 1. rewrite Ha.
  destruct (inner_ring_brush_color self);
    destruct (inner_circle_brush_color self); cbn;
    repeat rewrite <- app_assoc; reflexivity.
Qed.

(** C5: the ratio of the needle is computed without a division fault on
    every gauge, and [drawNeedle] runs to its end on a toolkit that does not
    fail; on a gauge whose range is zero the ratio is [0], and it is the
    quotient by the range only on a gauge whose range is not zero. *)
Theorem value_ratio_guarded (self : CircularGauge) :
  exists r,
    value_ratio self = Return r /\
    value_ratio self <> Raise ZeroDivisionError /\
    needle_angle self = Return (start_angle self + r * angle_range self) /\
    (forall radius tr, exists tr',
       drawNeedle self radius no_fault tr = (Return tt, tr')) /\
    (max_value self - min_value self == 0 -> r = 0) /\
    (~ max_value self - min_value self == 0 ->
     r = (value self - min_value self)
         / (max_value self - min_value self)).
Proof.
  destruct (needle_angle_returns self) as [r [Hr [Ha [Hz Hn]]]].
  exists r. split; [exact Hr|]. split; [rewrite Hr; discriminate|].
  split; [exact Ha|]. split; [|split; assumption].
  intros radius tr. eexists. apply (@drawNeedle_emits self radius _ Ha tr).
Qed.




(** *** The paint callback *)


(** C10: the constructor does not look at [steps]: with
    [min_value < max_value] it returns a gauge holding the [steps] it was
    given, whatever integer that is; when that is [0], [drawTicks] raises
    [ZeroDivisionError] at the division of [angle_range] by [steps], and a
    paint stops there and prints the error. *)
Theorem init_accepts_any_steps (a : kwargs) :
  arg_min_value a < arg_max_value a ->
  exists self,
    __init__ a = Return self /\
    steps self = arg_steps a /\
    (arg_steps a = 0%Z ->
     (forall r tr,
        drawTicks self r no_fault tr = (Raise ZeroDivisionError, tr ++ [save]))
     /\
     forall rect, exists w',
       paintEvent no_fault rect (new_widget self) = Return w' /\
       stdout w' = [Error_in_paintEvent ZeroDivisionError]).
Proof.
  intro H. destruct (init_accepts a H) as [self [E [_ [_ [_ [Hs _]]]]]].
  exists self. split; [exact E|]. split; [exact Hs|].
  intro Hz. rewrite Hz in Hs.
  assert (Hd : Py.div (angle_range self) (inject_Z (steps self))
               = Raise ZeroDivisionError).
  { apply div_zero. rewrite Hs. reflexivity. }
  assert (Ht : forall r tr,
             drawTicks self r no_fault tr
             = (Raise ZeroDivisionError, tr ++ [save])).
  { intros r tr. unfold drawTicks. rewrite Hd. reflexivity. }
  split; [exact Ht|].
  intro rect. unfold paintEvent. cbn [gauge new_widget].
  unfold paint_body.
  unfold bind at 1. cbn [call no_fault].
  unfold bind at 1. cbn [call no_fault].
  unfold bind at 1. cbn [call no_fault].
  unfold bind at 1. rewrite drawOuterArc_emits.
  unfold bind at 1. rewrite Ht.
  eexists. split; reflexivity.
Qed.


(* =============================================================== *)
(** ** Further properties of the class *)

(** *** Runs of [setValue] *)

Lemma set_value_attr_twice (g : CircularGauge) (x y : Q) :
  set_value_attr (set_value_attr g x) y = set_value_attr g y.
Proof. reflexivity. Qed.

(** A second call sees the bounds of the first one, so it takes the branch
    it would take alone. *)
Lemma setValue_twice (w : Widget) (v1 v2 : Q) :
  exists w1 w12 w2,
    setValue v1 w = Return w1 /\
    setValue v2 w1 = Return w12 /\
    setValue v2 w = Return w2 /\
    gauge w12 = gauge w2 /\
    update_requests w12 = S (update_requests w2) /\
    min_value (gauge w1) = min_value (gauge w) /\
    max_value (gauge w1) = max_value (gauge w) /\
    update_requests w1 = S (update_requests w) /\
    frames w1 = frames w /\ stdout w1 = stdout w.
Proof.
  destruct (setValue_returns v1 w) as [x1 H1]. rewrite H1.
  exists {| gauge := set_value_attr (gauge w) x1;
            update_requests := S (update_requests w);
            frames := frames w;
            stdout := stdout w |}.
  unfold setValue. cbn.
  destruct (Py.lt v2 (min_value (gauge w)));
    [|destruct (Py.gt v2 (max_value (gauge w)))];
    eexists; eexists; (split; [reflexivity|]); (split; [reflexivity|]);
    (split; [reflexivity|]); cbn; repeat split.
Qed.

(** X3: of two [setValue] calls in a row the first leaves no trace in the
    gauge: the value stored is the one the second call alone would store.
    Both calls ask for a redraw. *)
Theorem setValue_last_wins (w : Widget) (v1 v2 : Q) :
  exists w1 w12 w2,
    setValue v1 w = Return w1 /\
    setValue v2 w1 = Return w12 /\
    setValue v2 w = Return w2 /\
    gauge w12 = gauge w2 /\
    update_requests w12 = S (S (update_requests w)) /\
    update_requests w2 = S (update_requests w).
Proof.
  destruct (setValue_twice w v1 v2)
    as [w1 [w12 [w2 [H1 [H12 [H2 [Hg [Hu _]]]]]]]].
  exists w1, w12, w2. repeat split; try assumption.
  - rewrite Hu. f_equal.
    destruct (setValue_returns v2 w) as [x Hx].
    rewrite Hx in H2. injection H2 as <-. reflexivity.
  - destruct (setValue_returns v2 w) as [x Hx].
    rewrite Hx in H2. injection H2 as <-. reflexivity.
Qed.

(** *** The demo window *)

(** X8: in the demo window (a gauge that is the demo gauge but for its
    value), [updateVoltage(v)] with [v] in the range 0..30 of the slider
    stores [v] itself, puts the needle at [8 * v - 210] degrees and asks for
    one redraw; the window stays a demo window. *)
Theorem updateVoltage_needle (win : Windows) (v : Z) :
  set_value_attr (gauge (win_gauge win)) 0 = demo_gauge ->
  (0 <= v <= 30)%Z ->
  exists win' a,
    updateVoltage v win = Return win' /\
    value (gauge (win_gauge win')) = inject_Z v /\
    needle_angle (gauge (win_gauge win')) = Return a /\
    a == 8 * inject_Z v - 210 /\
    update_requests (win_gauge win')
      = S (update_requests (win_gauge win)) /\
    slider win' = slider win /\
    set_value_attr (gauge (win_gauge win')) 0 = demo_gauge.
Proof.
  intros Hdemo [Hlo Hhi].
  assert (Hmin : min_value (gauge (win_gauge win)) = 0)
    by exact (f_equal min_value Hdemo).
  assert (Hmax : max_value (gauge (win_gauge win)) = 30)
    by exact (f_equal max_value Hdemo).
  assert (Hst : start_angle (gauge (win_gauge win)) = -(210))
    by exact (f_equal start_angle Hdemo).
  assert (Hra : angle_range (gauge (win_gauge win)) = 30 - -(210))
    by exact (f_equal angle_range Hdemo).
  rewrite Zle_Qle in Hlo, Hhi.
  change (inject_Z 0) with 0 in Hlo. change (inject_Z 30) with 30 in Hhi.
  assert (Hset : setValue (inject_Z v) (win_gauge win) = _)
    by (apply setValue_inside; rewrite ?Hmin, ?Hmax; assumption).
  eexists. eexists. unfold updateVoltage. rewrite Hset. cbn [obind].
  split; [reflexivity|]. cbn [win_gauge gauge slider update_requests].
  split; [reflexivity|].
  split; [apply needle_angle_regular; rewrite Hmin, Hmax; reflexivity|].
  split; [unfold needleAngle_spec; rewrite Hmin, Hmax, Hst, Hra; field|].
  split; [reflexivity|]. split; [reflexivity|].
  rewrite set_value_attr_twice. exact Hdemo.
Qed.


(** *** Paints on a toolkit that may fail *)



















(** *** The frame of a paint that runs to its end *)













(** *** [drawTicks_ok] *)







End Drawing.

(* ================================================================= *)
(** ** The theorems at concrete gauges *)

(** The constructor call, the three [setValue] calls and the needle angles
    of the demo window: [setValue(-5)] stores [0], [setValue(30)] puts the
    needle at [end_angle = 30], [setValue(15)] half-way at [-90]. *)
Example demo_end_to_end :
  obind (CircularGauge_new demo_kwargs) (fun w =>
  obind (setValue (-(5)) w) (fun w => Return (value (gauge w))))
  = Return 0 /\
  obind (CircularGauge_new demo_kwargs) (fun w =>
  obind (setValue 30 w) (fun w => needle_angle (gauge w)))
  = Return ((-(210)) + ((30 - 0) / (30 - 0)) * (30 - -(210))) /\
  (-(210)) + ((30 - 0) / (30 - 0)) * (30 - -(210)) == 30 /\
  obind (CircularGauge_new demo_kwargs) (fun w =>
  obind (setValue 15 w) (fun w => needle_angle (gauge w)))
  = Return ((-(210)) + ((15 - 0) / (30 - 0)) * (30 - -(210))) /\
  (-(210)) + ((15 - 0) / (30 - 0)) * (30 - -(210)) == -(90).
Proof. repeat split. Qed.

(** A paint of the demo gauge in a 400 x 300 rectangle: 16 ticks, 16 labels,
    the last label reads [30], nothing is printed. *)
Example demo_paint :
  obind (paintEvent (fun x => x) (fun x => x) (fun x => x) no_fault
                    (mkRect 400 300) demo_widget)
        (fun w =>
           Return (map (fun f => (List.length (filter is_drawLine f),
                                  List.length (filter is_drawText f),
                                  last (filter is_drawText f) save))
                       (frames w),
                   stdout w))
  = Return ([(16%nat, 16%nat,
              drawText (mkRectF (-(15)) (-(15)) 34 34) "30")], []).
Proof. vm_compute. reflexivity. Qed.

(** With [steps=0] the paint stops in [drawTicks]: the arc is drawn, no tick
    is, and the division error is printed. *)
Example zero_steps_paint :
  obind (CircularGauge_new (demo_with_steps 0)) (fun w =>
  obind (paintEvent (fun x => x) (fun x => x) (fun x => x) no_fault
                    (mkRect 400 300) w)
        (fun w =>
           Return (map (fun f => (List.length f,
                                  List.length (filter is_drawLine f)))
                       (frames w),
                   stdout w)))
  = Return ([(8%nat, 0%nat)], [Error_in_paintEvent ZeroDivisionError]).
Proof. vm_compute. reflexivity. Qed.

(** With a negative [steps] the constructor returns too, and a paint draws
    no tick and no label and prints nothing. *)
Example negative_steps_paint :
  obind (CircularGauge_new (demo_with_steps (-3))) (fun w =>
  obind (paintEvent (fun x => x) (fun x => x) (fun x => x) no_fault
                    (mkRect 400 300) w)
        (fun w =>
           Return (steps (gauge w),
                   map (fun f => (List.length (filter is_drawLine f),
                                  List.length (filter is_drawText f)))
                       (frames w),
                   stdout w)))
  = Return ((-3)%Z, [(0%nat, 0%nat)], []).
Proof. vm_compute. reflexivity. Qed.

(** On a toolkit that cannot draw text the paint stops at the first label;
    the error is printed and the callback returns. *)
Example no_text_paint :
  obind (paintEvent (fun x => x) (fun x => x) (fun x => x) no_text
                    (mkRect 400 300) demo_widget)
        (fun w => Return (stdout w))
  = Return [Error_in_paintEvent (RuntimeError "no font")].
Proof. vm_compute. reflexivity. Qed.

(** A paint into an empty rectangle runs to its end (the radius is
    negative, nothing is raised). *)
Example empty_rectangle_paint :
  obind (paintEvent (fun x => x) (fun x => x) (fun x => x) no_fault
                    (mkRect 0 0) demo_widget)
        (fun w => Return (map (@List.length painter_call) (frames w),
                          stdout w))
  = Return ([173%nat], []).
Proof. vm_compute. reflexivity. Qed.

(** The degenerate gauge: the ratio is [0], the needle is at
    [start_angle]. *)
Example degenerate_needle :
  value_ratio degenerate_gauge = Return 0 /\
  needle_angle degenerate_gauge = Return (-(210) + 0 * 240).
Proof. split; reflexivity. Qed.

Lemma setValue_clamps_witness :
  min_value (gauge demo_widget) < max_value (gauge demo_widget) /\
  exists w',
    setValue (-(5)) demo_widget = Return w' /\ value (gauge w') = 0.
Proof.
  assert (H : min_value (gauge demo_widget) < max_value (gauge demo_widget))
    by reflexivity.
  split; [exact H|].
  destruct (@setValue_clamps demo_widget (-(5)) H) as [w' [E [Hlo _]]].
  exists w'. split; [exact E|]. apply Hlo. reflexivity.
Defined.

Lemma init_accepts_any_steps_witness :
  arg_min_value (demo_with_steps 0) < arg_max_value (demo_with_steps 0) /\
  exists self,
    __init__ (demo_with_steps 0) = Return self /\
    steps self = 0%Z /\
    exists w',
      paintEvent (fun x => x) (fun x => x) (fun x => x) no_fault
                 (mkRect 400 300) (new_widget self) = Return w' /\
      stdout w' = [Error_in_paintEvent ZeroDivisionError].
Proof.
  assert (H : arg_min_value (demo_with_steps 0)
              < arg_max_value (demo_with_steps 0)) by reflexivity.
  split; [exact H|].
  destruct (@init_accepts_any_steps (fun x => x) (fun x => x) (fun x => x)
                                    (demo_with_steps 0) H)
    as [self [E [Hs Hz]]].
  exists self. split; [exact E|]. split; [exact Hs|].
  exact (proj2 (Hz eq_refl) (mkRect 400 300)).
Defined.

(* ================================================================= *)
(** ** The further properties at concrete gauges *)

Example Windows_new_demo : Windows_new = Return demo_window.
Proof. reflexivity. Qed.

Example init_demo_with_steps :
  __init__ (demo_with_steps (-3)) = Return (demo_gauge_with_steps (-3)) /\
  __init__ (demo_with_steps 0) = Return (demo_gauge_with_steps 0).
Proof. split; reflexivity. Qed.

(** The slider dragged from 0 to 30 and back to 12. *)
Example slider_run :
  obind (updateVoltage 30 demo_window) (fun win =>
  obind (updateVoltage 12 win) (fun win =>
  Return (value (gauge (win_gauge win)),
          update_requests (win_gauge win),
          needle_angle (gauge (win_gauge win)))))
  = Return (12, 2%nat, Return (-(210) + (12 - 0) / (30 - 0) * (30 - -(210)))).
Proof. reflexivity. Qed.

Lemma updateVoltage_needle_witness :
  set_value_attr (gauge (win_gauge demo_window)) 0 = demo_gauge /\
  (0 <= 12 <= 30)%Z /\
  exists win' a,
    updateVoltage 12 demo_window = Return win' /\
    value (gauge (win_gauge win')) = 12 /\
    needle_angle (gauge (win_gauge win')) = Return a /\
    a == 8 * 12 - 210.
Proof.
  assert (H : set_value_attr (gauge (win_gauge demo_window)) 0 = demo_gauge)
    by reflexivity.
  assert (Hv : (0 <= 12 <= 30)%Z) by (split; discriminate).
  split; [exact H|]. split; [exact Hv|].
  destruct (@updateVoltage_needle demo_window 12 H Hv)
    as [win' [a [E [Hval [Ha [Hang _]]]]]].
  exists win', a. repeat split; assumption.
Defined.






(* ================================================================= *)
(** ** Rounding to a double *)

Unset Implicit Arguments.

(** *** Powers of two *)

Lemma pow2_pos (e : Z) : 0 < pow2 e.
Proof. apply Qpower_0_lt. reflexivity. Qed.

Lemma pow2_add (a b : Z) : pow2 (a + b) == pow2 a * pow2 b.
Proof. apply Qpower_plus. discriminate. Qed.

Lemma pow2_le (a b : Z) : (a <= b)%Z -> pow2 a <= pow2 b.
Proof. intro H. apply Qpower_le_compat_l; [exact H | discriminate]. Qed.

Lemma pow2_lt (a b : Z) : (a < b)%Z -> pow2 a < pow2 b.
Proof. intro H. apply Qpower_lt_compat_l; [exact H | reflexivity]. Qed.

Lemma pow2_lt_inv (a b : Z) : pow2 a < pow2 b -> (a < b)%Z.
Proof. intro H. apply (Qpower_lt_compat_l_inv 2); [exact H | reflexivity]. Qed.

Lemma pow2_Z (n : Z) : (0 <= n)%Z -> pow2 n == inject_Z (2 ^ n).
Proof. intro H. symmetry. apply (Zpower_Qpower 2 n H). Qed.

Lemma pow2_div (x : Q) (e : Z) : x / pow2 e * pow2 e == x.
Proof.
  field. intro H. pose proof (pow2_pos e) as P. rewrite H in P.
  discriminate.
Qed.

(** *** Rounding to an integer *)

Lemma rhe_cases (x : Q) :
  Py.round_half_even x = Qfloor x \/ Py.round_half_even x = (Qfloor x + 1)%Z.
Proof.
  unfold Py.round_half_even.
  destruct (Qcompare (x - inject_Z (Qfloor x)) (1 # 2));
    [destruct (Z.even (Qfloor x))|..]; auto.
Qed.

Lemma rhe_comp (x y : Q) : x == y -> Py.round_half_even x = Py.round_half_even y.
Proof.
  intro H. unfold Py.round_half_even.
  rewrite (Qfloor_comp _ _ H).
  assert (E : x - inject_Z (Qfloor y) == y - inject_Z (Qfloor y))
    by (rewrite H; reflexivity).
  rewrite (Qcompare_comp _ _ E _ _ (Qeq_refl (1 # 2))). reflexivity.
Qed.

Lemma rhe_Z (k : Z) : Py.round_half_even (inject_Z k) = k.
Proof.
  unfold Py.round_half_even. rewrite Qfloor_Z.
  assert (E : inject_Z k - inject_Z k == 0) by ring.
  rewrite (Qcompare_comp _ _ E _ _ (Qeq_refl (1 # 2))). reflexivity.
Qed.

Lemma rhe_mono (x y : Q) :
  x <= y -> (Py.round_half_even x <= Py.round_half_even y)%Z.
Proof.
  intro H. pose proof (Qfloor_resp_le _ _ H) as Hf.
  destruct (Z.eq_dec (Qfloor x) (Qfloor y)) as [E | N].
  - unfold Py.round_half_even. rewrite E.
    destruct (Qcompare_spec (x - inject_Z (Qfloor y)) (1 # 2)) as [Cx|Cx|Cx];
      destruct (Qcompare_spec (y - inject_Z (Qfloor y)) (1 # 2)) as [Cy|Cy|Cy];
      try (destruct (Z.even (Qfloor y))); try lia; exfalso;
      generalize dependent (inject_Z (Qfloor y)); intros; lra.
  - destruct (rhe_cases x) as [-> | ->]; destruct (rhe_cases y) as [-> | ->];
      lia.
Qed.

(** *** Multiples of a power of two *)

Lemma on_grid_0 (e : Z) : on_grid e 0.
Proof. exists 0%Z. ring. Qed.

Lemma on_grid_rnd_at (e : Z) (x : Q) : on_grid e (rnd_at e x).
Proof. eexists. reflexivity. Qed.

Lemma on_grid_opp (e : Z) (g : Q) : on_grid e g -> on_grid e (- g).
Proof.
  intros [k H]. exists (- k)%Z. rewrite H, inject_Z_opp. ring.
Qed.

Lemma on_grid_finer (e e' : Z) (g : Q) :
  (e' <= e)%Z -> on_grid e g -> on_grid e' g.
Proof.
  intros Hle [k H]. exists (k * 2 ^ (e - e'))%Z.
  rewrite H, inject_Z_mult, <- pow2_Z by lia.
  replace e with ((e - e') + e')%Z at 1 by ring.
  rewrite pow2_add. ring.
Qed.

Lemma on_grid_pow2 (e m : Z) : (e <= m)%Z -> on_grid e (pow2 m).
Proof.
  intro H. apply (on_grid_finer m e); [exact H|].
  exists 1%Z. ring.
Qed.

Lemma rnd_at_grid (e : Z) (g : Q) : on_grid e g -> rnd_at e g == g.
Proof.
  intros [k H]. unfold rnd_at.
  assert (E : g / pow2 e == inject_Z k).
  { rewrite H. field. intro Z. pose proof (pow2_pos e) as P.
    rewrite Z in P. discriminate. }
  rewrite (rhe_comp _ _ E), rhe_Z. symmetry. exact H.
Qed.

Lemma rnd_at_mono (e : Z) (x y : Q) : x <= y -> rnd_at e x <= rnd_at e y.
Proof.
  intro H. unfold rnd_at.
  apply Qmult_le_compat_r; [|apply Qlt_le_weak, pow2_pos].
  rewrite <- Zle_Qle. apply rhe_mono.
  unfold Qdiv. apply Qmult_le_compat_r; [exact H|].
  apply Qlt_le_weak, Qinv_lt_0_compat, pow2_pos.
Qed.

Lemma rnd_at_le (e : Z) (x g : Q) : on_grid e g -> x <= g -> rnd_at e x <= g.
Proof.
  intros Hg H. rewrite <- (rnd_at_grid e g Hg). apply rnd_at_mono. exact H.
Qed.

Lemma rnd_at_ge (e : Z) (x g : Q) : on_grid e g -> g <= x -> g <= rnd_at e x.
Proof.
  intros Hg H. rewrite <- (rnd_at_grid e g Hg). apply rnd_at_mono. exact H.
Qed.

(** *** The magnitude *)

Lemma Qdiv_lt_cross (a b c d : Q) :
  0 < b -> 0 < d -> a * d < c * b -> a / b < c / d.
Proof.
  intros Hb Hd H. apply Qlt_shift_div_r; [exact Hb|].
  setoid_replace (c / d * b) with (c * b / d) by (field; lra).
  apply Qlt_shift_div_l; assumption.
Qed.

Lemma log2_bounds (n : positive) :
  pow2 (Z.log2 (Zpos n)) <= inject_Z (Zpos n) /\
  inject_Z (Zpos n) < pow2 (Z.log2 (Zpos n) + 1).
Proof.
  destruct (Z.log2_spec (Zpos n) eq_refl) as [Hlo Hhi].
  pose proof (Z.log2_nonneg (Zpos n)) as Hnn.
  rewrite !pow2_Z by lia. rewrite <- Zle_Qle, <- Zlt_Qlt.
  unfold Z.succ in Hhi. split; assumption.
Qed.

Lemma cross_lt (A N D B : Q) :
  0 < A -> A <= N -> 0 < D -> D < B -> A * D < N * B.
Proof.
  intros HA HN HD HB. apply Qle_lt_trans with (N * D).
  - apply Qmult_le_compat_r; lra.
  - apply Qmult_lt_l; lra.
Qed.

Lemma cross_lt' (A N D B : Q) :
  0 < N -> N < A -> 0 < B -> B <= D -> N * B < A * D.
Proof.
  intros HN HA HB HD. apply Qlt_le_trans with (A * B).
  - apply Qmult_lt_compat_r; lra.
  - apply Qmult_le_l; lra.
Qed.

Lemma ratio_log2 (n d : positive) :
  pow2 (Z.log2 (Zpos n) - Z.log2 (Zpos d) - 1) < Zpos n # d /\
  Zpos n # d < pow2 (Z.log2 (Zpos n) - Z.log2 (Zpos d) + 1).
Proof.
  destruct (log2_bounds n) as [An Bn]. destruct (log2_bounds d) as [Ad Bd].
  set (a := Z.log2 (Zpos n)) in *. set (b := Z.log2 (Zpos d)) in *.
  rewrite (Qmake_Qdiv (Zpos n) d).
  pose proof (pow2_pos a) as Pa. pose proof (pow2_pos b) as Pb.
  pose proof (pow2_pos (a + 1)) as Pa1. pose proof (pow2_pos (b + 1)) as Pb1.
  assert (E1 : pow2 (a - b - 1) == pow2 a / pow2 (b + 1)).
  { replace (a - b - 1)%Z with (a - (b + 1))%Z by ring.
    apply Qpower_minus. discriminate. }
  assert (E2 : pow2 (a - b + 1) == pow2 (a + 1) / pow2 b).
  { replace (a - b + 1)%Z with ((a + 1) - b)%Z by ring.
    apply Qpower_minus. discriminate. }
  rewrite E1, E2.
  split; apply Qdiv_lt_cross; try lra.
  - apply cross_lt; lra.
  - apply cross_lt'; lra.
Qed.

Lemma Qabs_make (n : Z) (d : positive) : Qabs (n # d) = (Z.abs n # d).
Proof. reflexivity. Qed.

Lemma mag_spec (x : Q) :
  ~ x == 0 ->
  pow2 (mag x - 1) <= Qabs x /\ Qabs x < pow2 (mag x).
Proof.
  intro Hx. destruct x as [n d]. unfold mag. cbn [Qnum Qden].
  rewrite Qabs_make.
  destruct n as [|n|n].
  - exfalso. apply Hx. reflexivity.
  - cbn [Z.abs]. destruct (ratio_log2 n d) as [Hlo Hhi].
    destruct (Qle_bool (pow2 (Z.log2 (Zpos n) - Z.log2 (Zpos d))) (Zpos n # d))
      eqn:T.
    + apply Qle_bool_iff in T. split; [|exact Hhi].
      replace (Z.log2 (Zpos n) - Z.log2 (Zpos d) + 1 - 1)%Z
        with (Z.log2 (Zpos n) - Z.log2 (Zpos d))%Z by ring. exact T.
    + split; [apply Qlt_le_weak; exact Hlo|].
      apply Qnot_le_lt. intro L. apply Qle_bool_iff in L. congruence.
  - cbn [Z.abs]. destruct (ratio_log2 n d) as [Hlo Hhi].
    destruct (Qle_bool (pow2 (Z.log2 (Zpos n) - Z.log2 (Zpos d))) (Zpos n # d))
      eqn:T.
    + apply Qle_bool_iff in T. split; [|exact Hhi].
      replace (Z.log2 (Zpos n) - Z.log2 (Zpos d) + 1 - 1)%Z
        with (Z.log2 (Zpos n) - Z.log2 (Zpos d))%Z by ring. exact T.
    + split; [apply Qlt_le_weak; exact Hlo|].
      apply Qnot_le_lt. intro L. apply Qle_bool_iff in L. congruence.
Qed.

Lemma mag_upper (x : Q) (m : Z) :
  ~ x == 0 -> Qabs x < pow2 m -> (mag x <= m)%Z.
Proof.
  intros Hx H. destruct (mag_spec x Hx) as [Hlo _].
  assert (L : pow2 (mag x - 1) < pow2 m) by lra.
  apply pow2_lt_inv in L. lia.
Qed.

Lemma mag_lower (x : Q) (m : Z) :
  ~ x == 0 -> pow2 m <= Qabs x -> (m < mag x)%Z.
Proof.
  intros Hx H. destruct (mag_spec x Hx) as [_ Hhi].
  apply pow2_lt_inv. lra.
Qed.

Lemma mag_le (x y : Q) :
  ~ x == 0 -> ~ y == 0 -> Qabs x <= Qabs y -> (mag x <= mag y)%Z.
Proof.
  intros Hx Hy H. destruct (mag_spec y Hy) as [_ Hhi].
  apply mag_upper; [exact Hx | lra].
Qed.

Lemma cexp_le (x y : Q) :
  ~ x == 0 -> ~ y == 0 -> Qabs x <= Qabs y -> (cexp x <= cexp y)%Z.
Proof.
  intros Hx Hy H. pose proof (mag_le x y Hx Hy H). unfold cexp. lia.
Qed.

(** *** Rounding to a double *)

Lemma rnd_0 : rnd 0 == 0.
Proof. reflexivity. Qed.

Lemma rnd_nonneg (x : Q) : 0 <= x -> 0 <= rnd x.
Proof. intro H. apply rnd_at_ge; [apply on_grid_0 | exact H]. Qed.

Lemma rnd_nonpos (x : Q) : x <= 0 -> rnd x <= 0.
Proof. intro H. apply rnd_at_le; [apply on_grid_0 | exact H]. Qed.

Lemma rnd_mono_pos (x y : Q) : 0 < x -> x <= y -> rnd x <= rnd y.
Proof.
  intros Hx Hxy.
  assert (Nx : ~ x == 0) by lra. assert (Ny : ~ y == 0) by lra.
  destruct (mag_spec x Nx) as [Lx Ux]. destruct (mag_spec y Ny) as [Ly Uy].
  rewrite (Qabs_pos x) in Lx, Ux by lra. rewrite (Qabs_pos y) in Ly, Uy by lra.
  assert (Habs : Qabs x <= Qabs y)
    by (rewrite (Qabs_pos x), (Qabs_pos y); lra).
  pose proof (cexp_le x y Nx Ny Habs) as Hc.
  destruct (Z.eq_dec (cexp x) (cexp y)) as [E | N].
  - unfold rnd. rewrite E. apply rnd_at_mono. exact Hxy.
  - assert (Hm : (mag x < mag y)%Z) by (unfold cexp in *; lia).
    assert (Hcy : cexp y = (mag y - 53)%Z) by (unfold cexp in *; lia).
    apply Qle_trans with (pow2 (mag y - 1)).
    + apply rnd_at_le; [apply on_grid_pow2; lia|].
      apply Qle_trans with (pow2 (mag x)); [lra | apply pow2_le; lia].
    + apply rnd_at_ge; [apply on_grid_pow2; lia | exact Ly].
Qed.

Lemma rnd_mono_neg (x y : Q) : y < 0 -> x <= y -> rnd x <= rnd y.
Proof.
  intros Hy Hxy.
  assert (Nx : ~ x == 0) by lra. assert (Ny : ~ y == 0) by lra.
  destruct (mag_spec x Nx) as [Lx Ux]. destruct (mag_spec y Ny) as [Ly Uy].
  rewrite (Qabs_neg x) in Lx, Ux by lra. rewrite (Qabs_neg y) in Ly, Uy by lra.
  assert (Habs : Qabs y <= Qabs x)
    by (rewrite (Qabs_neg x), (Qabs_neg y); lra).
  pose proof (cexp_le y x Ny Nx Habs) as Hc.
  destruct (Z.eq_dec (cexp x) (cexp y)) as [E | N].
  - unfold rnd. rewrite E. apply rnd_at_mono. exact Hxy.
  - assert (Hm : (mag y < mag x)%Z) by (unfold cexp in *; lia).
    assert (Hcx : cexp x = (mag x - 53)%Z) by (unfold cexp in *; lia).
    apply Qle_trans with (- pow2 (mag x - 1)).
    + apply rnd_at_le; [apply on_grid_opp, on_grid_pow2; lia | lra].
    + apply rnd_at_ge; [apply on_grid_opp, on_grid_pow2; lia|].
      assert (pow2 (mag y) <= pow2 (mag x - 1)) by (apply pow2_le; lia).
      lra.
Qed.

Theorem rnd_mono (x y : Q) : x <= y -> rnd x <= rnd y.
Proof.
  intro H.
  destruct (Qlt_le_dec 0 x) as [Hx | Hx].
  - apply rnd_mono_pos; assumption.
  - destruct (Qlt_le_dec y 0) as [Hy | Hy].
    + apply rnd_mono_neg; assumption.
    + apply Qle_trans with 0; [apply rnd_nonpos | apply rnd_nonneg];
        assumption.
Qed.

Lemma Qnum_0 (x : Q) : x == 0 <-> Qnum x = 0%Z.
Proof.
  unfold Qeq. cbn. rewrite Z.mul_1_r. reflexivity.
Qed.

Lemma mag_comp (x y : Q) : x == y -> mag x = mag y.
Proof.
  intro H. destruct (Qeq_dec x 0) as [Z | N].
  - assert (Zy : y == 0) by (rewrite <- H; exact Z).
    apply Qnum_0 in Z. apply Qnum_0 in Zy.
    unfold mag. rewrite Z, Zy. reflexivity.
  - assert (Ny : ~ y == 0) by (rewrite <- H; exact N).
    assert (E : Qabs x == Qabs y) by (rewrite H; reflexivity).
    apply Z.le_antisymm; apply mag_le; try assumption; rewrite E;
      apply Qle_refl.
Qed.

Lemma rnd_at_comp (e : Z) (x y : Q) : x == y -> rnd_at e x == rnd_at e y.
Proof.
  intro H. unfold rnd_at.
  assert (E : x / pow2 e == y / pow2 e) by (rewrite H; reflexivity).
  rewrite (rhe_comp _ _ E). reflexivity.
Qed.

Lemma rnd_comp (x y : Q) : x == y -> rnd x == rnd y.
Proof.
  intro H. unfold rnd, cexp. rewrite (mag_comp x y H).
  apply rnd_at_comp. exact H.
Qed.

Lemma on_grid_comp (e : Z) (x y : Q) : x == y -> on_grid e x -> on_grid e y.
Proof. intros H [k Hk]. exists k. rewrite <- H. exact Hk. Qed.

Lemma rnd_on_grid (x : Q) : on_grid (cexp x) x -> rnd x == x.
Proof. apply rnd_at_grid. Qed.

Theorem rnd_idem (x : Q) : rnd (rnd x) == rnd x.
Proof.
  destruct (Qeq_dec (rnd x) 0) as [Z | N].
  { rewrite (rnd_comp _ _ Z), rnd_0. symmetry. exact Z. }
  assert (Nx : ~ x == 0).
  { intro Z. apply N. rewrite (rnd_comp _ _ Z). apply rnd_0. }
  apply rnd_on_grid.
  destruct (mag_spec x Nx) as [Lx Ux].
  set (c := cexp x). set (M := Z.max (mag x) c).
  assert (HM : pow2 (mag x) <= pow2 M) by (apply pow2_le; unfold M; lia).
  assert (Hgrid : on_grid c (rnd x)) by apply on_grid_rnd_at.
  assert (GM : on_grid c (pow2 M)) by (apply on_grid_pow2; unfold M; lia).
  apply Qabs_Qlt_condition in Ux.
  assert (Hup : rnd x <= pow2 M) by (apply rnd_at_le; [exact GM | lra]).
  assert (Hlo : - pow2 M <= rnd x)
    by (apply rnd_at_ge; [apply on_grid_opp; exact GM | lra]).
  assert (Habs : Qabs (rnd x) <= pow2 M)
    by (apply Qabs_Qle_condition; split; assumption).
  destruct (Qle_lt_or_eq _ _ Habs) as [Hlt | Heq].
  - pose proof (mag_upper (rnd x) M N Hlt) as Hm.
    apply (on_grid_finer c); [|exact Hgrid].
    subst c M. unfold cexp in *. lia.
  - assert (Hm1 : (M < mag (rnd x))%Z)
      by (apply mag_lower; [exact N | rewrite Heq; apply Qle_refl]).
    assert (Hm2 : (mag (rnd x) <= M + 1)%Z).
    { apply mag_upper; [exact N|]. rewrite Heq. apply pow2_lt. lia. }
    assert (Hc : (cexp (rnd x) <= M)%Z)
      by (subst c M; unfold cexp in *; lia).
    destruct (Qlt_le_dec (rnd x) 0) as [Hneg | Hpos].
    + rewrite Qabs_neg in Heq by lra.
      apply (on_grid_comp _ (- pow2 M)); [rewrite <- Heq; ring|].
      apply on_grid_opp, on_grid_pow2. exact Hc.
    + rewrite Qabs_pos in Heq by lra.
      apply (on_grid_comp _ (pow2 M)); [symmetry; exact Heq|].
      apply on_grid_pow2. exact Hc.
Qed.

(** *** The doubles among the rationals *)

Lemma representable_rnd (x : Q) : representable (rnd x).
Proof. apply rnd_idem. Qed.

Lemma representable_0 : representable 0.
Proof. reflexivity. Qed.

Lemma representable_1 : representable 1.
Proof. reflexivity. Qed.

Lemma rnd_le_representable (x g : Q) :
  representable g -> x <= g -> rnd x <= g.
Proof.
  intros Hg H. unfold representable in Hg.
  apply Qle_trans with (rnd g); [apply rnd_mono; exact H|].
  rewrite Hg. apply Qle_refl.
Qed.

Lemma rnd_ge_representable (x g : Q) :
  representable g -> g <= x -> g <= rnd x.
Proof.
  intros Hg H. unfold representable in Hg.
  apply Qle_trans with (rnd g); [|apply rnd_mono; exact H].
  rewrite Hg. apply Qle_refl.
Qed.

(* ================================================================= *)
(** ** Properties of the widget on binary64 numbers *)

Module B64Facts.
Import B64.

(** *** Rounded results *)

Lemma round_fin_finite (x : Q) :
  Qabs (rnd x) < pow2 1024 -> round_fin x = Fin (Qred (rnd x)).
Proof.
  intro H. unfold round_fin.
  destruct (Qle_bool (pow2 1024) (Qabs (rnd x))) eqn:E; [|reflexivity].
  apply Qle_bool_iff in E. exfalso. lra.
Qed.

Lemma round_fin_inv (x q : Q) :
  round_fin x = Fin q -> q == rnd x /\ Qabs (rnd x) < pow2 1024.
Proof.
  unfold round_fin.
  destruct (Qle_bool (pow2 1024) (Qabs (rnd x))) eqn:E; [discriminate|].
  intro H. injection H as <-. split; [exact (Qred_correct (rnd x))|].
  apply Qnot_le_lt. intro L. apply Qle_bool_iff in L. congruence.
Qed.

Lemma round_fin_comp (x y : Q) : x == y -> round_fin x = round_fin y.
Proof.
  intro H. unfold round_fin, is_neg.
  pose proof (rnd_comp x y H) as Hr.
  assert (E1 : Qle_bool (pow2 1024) (Qabs (rnd x))
               = Qle_bool (pow2 1024) (Qabs (rnd y))).
  { destruct (Qle_bool (pow2 1024) (Qabs (rnd x))) eqn:A;
      destruct (Qle_bool (pow2 1024) (Qabs (rnd y))) eqn:B; try reflexivity.
    - apply Qle_bool_iff in A. rewrite Hr in A. apply Qle_bool_iff in A.
      congruence.
    - apply Qle_bool_iff in B. rewrite <- Hr in B. apply Qle_bool_iff in B.
      congruence. }
  assert (E2 : Qle_bool 0 x = Qle_bool 0 y).
  { destruct (Qle_bool 0 x) eqn:A; destruct (Qle_bool 0 y) eqn:B;
      try reflexivity.
    - apply Qle_bool_iff in A. rewrite H in A. apply Qle_bool_iff in A.
      congruence.
    - apply Qle_bool_iff in B. rewrite <- H in B. apply Qle_bool_iff in B.
      congruence. }
  rewrite E1, E2. rewrite (Qred_complete _ _ Hr). reflexivity.
Qed.

(** An exact result between two doubles rounds to a double between
    them. *)
Lemma round_fin_between (lo hi x : Q) :
  is_double lo -> is_double hi -> lo <= x -> x <= hi ->
  exists q, round_fin x = Fin q /\ q == rnd x /\ lo <= q /\ q <= hi.
Proof.
  intros [Rlo Blo] [Rhi Bhi] Hlo Hhi.
  pose proof (rnd_ge_representable x lo Rlo Hlo) as L.
  pose proof (rnd_le_representable x hi Rhi Hhi) as U.
  apply Qabs_Qlt_condition in Blo. apply Qabs_Qlt_condition in Bhi.
  assert (B : Qabs (rnd x) < pow2 1024)
    by (apply Qabs_Qlt_condition; split; lra).
  exists (Qred (rnd x)). rewrite (round_fin_finite x B).
  split; [reflexivity|]. rewrite Qred_correct.
  split; [reflexivity|]. split; assumption.
Qed.

Lemma is_double_0 : is_double 0.
Proof. split; reflexivity. Qed.

Lemma is_double_1 : is_double 1.
Proof. split; reflexivity. Qed.

Lemma is_double_rnd (x : Q) : Qabs (rnd x) < pow2 1024 -> is_double (rnd x).
Proof. intro H. split; [apply representable_rnd | exact H]. Qed.

Lemma is_double_comp (x y : Q) : x == y -> is_double x -> is_double y.
Proof.
  intros H [R B]. split.
  - unfold representable in *. rewrite <- (rnd_comp x y H), R. exact H.
  - rewrite <- H. exact B.
Qed.

Lemma representable_grid (x : Q) : representable x -> on_grid (-1074) x.
Proof.
  intro H. apply (on_grid_comp _ (rnd x)); [exact H|].
  apply (on_grid_finer (cexp x)); [unfold cexp; lia|].
  apply on_grid_rnd_at.
Qed.

Lemma on_grid_sub (e : Z) (x y : Q) :
  on_grid e x -> on_grid e y -> on_grid e (x - y).
Proof.
  intros [k Hk] [l Hl]. exists (k - l)%Z.
  rewrite Hk, Hl. unfold Z.sub. rewrite inject_Z_plus, inject_Z_opp. ring.
Qed.

Lemma representable_min_subnormal : representable (pow2 (-1074)).
Proof.
  apply rnd_on_grid. apply on_grid_pow2. vm_compute. discriminate.
Qed.

(** The difference of two distinct doubles does not round to zero. *)
Lemma rnd_sub_pos (m M : Q) :
  representable m -> representable M -> m < M -> 0 < rnd (M - m).
Proof.
  intros Hm HM Hlt.
  destruct (on_grid_sub _ _ _ (representable_grid M HM)
                        (representable_grid m Hm)) as [k Hk].
  pose proof (pow2_pos (-1074)) as P.
  assert (Hk1 : (1 <= k)%Z).
  { destruct (Z_lt_le_dec k 1) as [L | L]; [|exact L]. exfalso.
    assert (L0 : inject_Z k <= 0)
      by (change 0 with (inject_Z 0); rewrite <- Zle_Qle; lia).
    assert (inject_Z k * pow2 (-1074) <= 0).
    { setoid_replace 0 with (0 * pow2 (-1074)) by ring.
      apply Qmult_le_compat_r; lra. }
    lra. }
  apply Qlt_le_trans with (pow2 (-1074)); [exact P|].
  apply rnd_ge_representable; [apply representable_min_subnormal|].
  rewrite Hk.
  setoid_replace (pow2 (-1074)) with (1 * pow2 (-1074)) at 1 by ring.
  apply Qmult_le_compat_r; [|lra].
  change 1 with (inject_Z 1). rewrite <- Zle_Qle. exact Hk1.
Qed.

(** *** The needle angle in exact terms *)

Section Needle.

Variables m M s R : Q.
Hypothesis Hm : is_double m.
Hypothesis HM : is_double M.
Hypothesis Hs : is_double s.
Hypothesis HR : is_double R.
Hypothesis Hlt : m < M.
Hypothesis Hd : Qabs (rnd (M - m)) < pow2 1024.
Hypothesis He : Qabs (rnd (s + R)) < pow2 1024.

Lemma d_pos : 0 < rnd (M - m).
Proof. apply rnd_sub_pos; [apply Hm | apply HM | exact Hlt]. Qed.

Lemma diff_bounds (x : Q) :
  m <= x -> x <= M -> 0 <= rnd (x - m) /\ rnd (x - m) <= rnd (M - m).
Proof.
  intros Hlo Hhi. split; [apply rnd_nonneg; lra | apply rnd_mono; lra].
Qed.

Lemma ratio_bounds64 (x : Q) :
  m <= x -> x <= M ->
  0 <= rnd (rnd (x - m) / rnd (M - m)) /\
  rnd (rnd (x - m) / rnd (M - m)) <= 1.
Proof.
  intros Hlo Hhi. destruct (diff_bounds x Hlo Hhi) as [H0 H1].
  pose proof d_pos as P. split.
  - apply rnd_nonneg. apply Qle_shift_div_l; lra.
  - apply rnd_le_representable; [apply representable_1|].
    apply Qle_shift_div_r; lra.
Qed.

Lemma ratio_mono64 (x y : Q) :
  x <= y ->
  rnd (rnd (x - m) / rnd (M - m)) <= rnd (rnd (y - m) / rnd (M - m)).
Proof.
  intro H. apply rnd_mono. unfold Qdiv.
  apply Qmult_le_compat_r;
    [|apply Qlt_le_weak, Qinv_lt_0_compat, d_pos].
  apply rnd_mono. lra.
Qed.

Lemma prod_bounds (r : Q) :
  0 <= r -> r <= 1 ->
  (0 <= R -> 0 <= rnd (r * R) /\ rnd (r * R) <= R) /\
  (R <= 0 -> R <= rnd (r * R) /\ rnd (r * R) <= 0).
Proof.
  intros H0 H1. split; intro HRs; split.
  - apply rnd_nonneg. apply Qmult_le_0_compat; lra.
  - apply rnd_le_representable; [apply HR|]. nra.
  - apply rnd_ge_representable; [apply HR|]. nra.
  - apply rnd_nonpos. nra.
Qed.

Lemma angle_mono (x y : Q) :
  x <= y ->
  (0 <= R -> angle_of m M s R x <= angle_of m M s R y) /\
  (R <= 0 -> angle_of m M s R y <= angle_of m M s R x).
Proof.
  intro H. pose proof (ratio_mono64 x y H) as Hr.
  split; intro HRs; unfold angle_of; apply rnd_mono;
    apply Qplus_le_r; apply rnd_mono.
  - apply Qmult_le_compat_r; assumption.
  - setoid_replace (rnd (rnd (y - m) / rnd (M - m)) * R)
      with (- (rnd (rnd (y - m) / rnd (M - m)) * (- R))) by ring.
    setoid_replace (rnd (rnd (x - m) / rnd (M - m)) * R)
      with (- (rnd (rnd (x - m) / rnd (M - m)) * (- R))) by ring.
    apply Qopp_le_compat. apply Qmult_le_compat_r; [exact Hr | lra].
Qed.

Lemma angle_at_min : angle_of m M s R m == s.
Proof.
  unfold angle_of.
  assert (E1 : rnd (m - m) == 0)
    by (rewrite (rnd_comp (m - m) 0) by ring; apply rnd_0).
  assert (E2 : rnd (rnd (m - m) / rnd (M - m)) == 0).
  { rewrite (rnd_comp _ 0); [apply rnd_0|]. rewrite E1.
    unfold Qdiv. ring. }
  assert (E3 : rnd (rnd (rnd (m - m) / rnd (M - m)) * R) == 0).
  { rewrite (rnd_comp _ 0); [apply rnd_0|]. rewrite E2. ring. }
  rewrite (rnd_comp _ s); [apply Hs|]. rewrite E3. ring.
Qed.

Lemma angle_at_max : angle_of m M s R M == rnd (s + R).
Proof.
  unfold angle_of. pose proof d_pos as P.
  assert (E2 : rnd (rnd (M - m) / rnd (M - m)) == 1).
  { rewrite (rnd_comp _ 1); [apply representable_1|]. field. lra. }
  assert (E3 : rnd (rnd (rnd (M - m) / rnd (M - m)) * R) == R).
  { rewrite (rnd_comp _ R); [apply HR|]. rewrite E2. ring. }
  apply rnd_comp. rewrite E3. reflexivity.
Qed.

Lemma angle_bounds (x : Q) :
  m <= x -> x <= M ->
  (0 <= R -> s <= angle_of m M s R x /\ angle_of m M s R x <= rnd (s + R)) /\
  (R <= 0 -> rnd (s + R) <= angle_of m M s R x /\ angle_of m M s R x <= s).
Proof.
  intros Hlo Hhi.
  destruct (angle_mono m x Hlo) as [A1 A2].
  destruct (angle_mono x M Hhi) as [B1 B2].
  pose proof angle_at_min as Emin. pose proof angle_at_max as Emax.
  generalize dependent (angle_of m M s R m).
  generalize dependent (angle_of m M s R M).
  generalize dependent (angle_of m M s R x).
  intros ax aM B1 B2 EM am A1 A2 Em.
  split; intro HRs; split;
    try (pose proof (A1 HRs)); try (pose proof (B1 HRs));
    try (pose proof (A2 HRs)); try (pose proof (B2 HRs)); lra.
Qed.

End Needle.

(** *** The operations on finite doubles *)

Lemma add_Fin (a b : Q) : add (Fin a) (Fin b) = round_fin (a + b).
Proof. reflexivity. Qed.

Lemma sub_Fin (a b : Q) : sub (Fin a) (Fin b) = round_fin (a - b).
Proof.
  unfold sub, neg. rewrite add_Fin. apply round_fin_comp.
  rewrite Qred_correct. reflexivity.
Qed.

Lemma mul_Fin (a b : Q) : mul (Fin a) (Fin b) = round_fin (a * b).
Proof. reflexivity. Qed.

Lemma div_Fin (a b : Q) :
  ~ b == 0 -> div (Fin a) (Fin b) = Return (round_fin (a / b)).
Proof.
  intro H. unfold div, is_zero.
  destruct (Qeq_bool b 0) eqn:E; [|reflexivity].
  apply Qeq_bool_iff in E. contradiction.
Qed.

Lemma is_fin_round (x : Q) :
  is_fin (round_fin x) = true -> Qabs (rnd x) < pow2 1024.
Proof.
  unfold round_fin.
  destruct (Qle_bool (pow2 1024) (Qabs (rnd x))) eqn:E; [discriminate|].
  intros _. apply Qnot_le_lt. intro L. apply Qle_bool_iff in L. congruence.
Qed.

Lemma lt_Fin (a b : Q) : lt (Fin a) (Fin b) = true <-> a < b.
Proof. apply lt_true. Qed.

Lemma lt_Fin_false (a b : Q) : lt (Fin a) (Fin b) = false <-> b <= a.
Proof. apply lt_false. Qed.

Lemma le_Fin (a b : Q) : le (Fin a) (Fin b) = true <-> a <= b.
Proof. apply Qle_bool_iff. Qed.

Lemma eq_Fin (a b : Q) : eq (Fin a) (Fin b) = true <-> a == b.
Proof. apply Qeq_bool_iff. Qed.

(** The needle angle of the code is [angle_of], every operation staying
    finite. *)
Lemma needle_angle_fin (g : CircularGauge) (m M s R x : Q) :
  min_value g = Fin m -> max_value g = Fin M ->
  start_angle g = Fin s -> angle_range g = Fin R ->
  is_double m -> is_double M -> is_double s -> is_double R ->
  m < M ->
  Qabs (rnd (M - m)) < pow2 1024 ->
  Qabs (rnd (s + R)) < pow2 1024 ->
  m <= x -> x <= M ->
  exists a,
    needle_angle (set_value_attr g (Fin x)) = Return (Fin a) /\
    a == angle_of m M s R x.
Proof.
  intros Emin Emax Est Era Hm HM Hs HR Hlt Hd He Hlo Hhi.
  pose proof (d_pos m M Hm HM Hlt) as Pd.
  destruct (diff_bounds m M x Hlo Hhi) as [X0 X1].
  destruct (ratio_bounds64 m M Hm HM Hlt x Hlo Hhi) as [R0 R1].
  destruct (prod_bounds R HR _ R0 R1) as [Ppos Pneg].
  destruct (angle_bounds m M s R Hm HM Hs HR Hlt x Hlo Hhi) as [Apos Aneg].
  unfold angle_of in Apos, Aneg.
  destruct Hs as [Rs Bs]. destruct HR as [RR BR].
  apply Qabs_Qlt_condition in Bs. apply Qabs_Qlt_condition in BR.
  apply Qabs_Qlt_condition in Hd. apply Qabs_Qlt_condition in He.
  pose proof (pow2_pos 1024) as P1024.
  assert (B1024 : 1 < pow2 1024) by reflexivity.
  unfold needle_angle, value_ratio.
  cbn [min_value max_value value start_angle angle_range set_value_attr].
  rewrite Emin, Emax, Est, Era, !sub_Fin.
  (* the range *)
  rewrite (round_fin_finite (M - m))
    by (apply Qabs_Qlt_condition; lra).
  assert (Nd : ~ Qred (rnd (M - m)) == 0)
    by (rewrite Qred_correct; lra).
  unfold eq. destruct (Qeq_bool (Qred (rnd (M - m))) 0) eqn:Eq0;
    [apply Qeq_bool_iff in Eq0; contradiction|].
  (* the difference and the ratio *)
  rewrite (round_fin_finite (x - m))
    by (apply Qabs_Qlt_condition; lra).
  rewrite (div_Fin _ _ Nd).
  rewrite (round_fin_comp _ (rnd (x - m) / rnd (M - m)))
    by (rewrite !Qred_correct; reflexivity).
  rewrite round_fin_finite by (apply Qabs_Qlt_condition; lra).
  cbn [obind]. rewrite mul_Fin.
  rewrite (round_fin_comp _ (rnd (rnd (x - m) / rnd (M - m)) * R))
    by (rewrite Qred_correct; reflexivity).
  rewrite round_fin_finite
    by (apply Qabs_Qlt_condition;
        destruct (Qlt_le_dec R 0) as [Rn | Rp];
        [destruct Pneg; lra | destruct Ppos; lra]).
  rewrite add_Fin.
  rewrite (round_fin_comp _
             (s + rnd (rnd (rnd (x - m) / rnd (M - m)) * R)))
    by (rewrite Qred_correct; reflexivity).
  rewrite round_fin_finite
    by (apply Qabs_Qlt_condition;
        destruct (Qlt_le_dec R 0) as [Rn | Rp];
        [destruct Aneg; lra | destruct Apos; lra]).
  eexists. split; [reflexivity|]. unfold angle_of. apply Qred_correct.
Qed.

Lemma clamp_fin (g : CircularGauge) (m M : Q) (v : double) :
  min_value g = Fin m -> max_value g = Fin M -> m < M ->
  is_nan v = false ->
  clamp g v = Fin (clamped m M v) \/
  (exists q, v = Fin q /\ m <= q /\ q <= M /\ clamp g v = Fin q
             /\ clamped m M v = q).
Proof.
  intros Emin Emax Hlt Hnan. unfold clamp, gt, clamped.
  rewrite Emin, Emax.
  destruct v as [q | [|] |]; cbn [lt]; try discriminate; auto.
  destruct (Qle_bool m q) eqn:A; cbn [negb].
  - destruct (Qle_bool q M) eqn:B; cbn [negb]; [|left; reflexivity].
    apply Qle_bool_iff in A. apply Qle_bool_iff in B.
    right. exists q. repeat split; assumption.
  - left. reflexivity.
Qed.

Lemma clamp_value (g : CircularGauge) (m M : Q) (v : double) :
  min_value g = Fin m -> max_value g = Fin M -> m < M ->
  is_nan v = false ->
  clamp g v = Fin (clamped m M v) /\
  m <= clamped m M v /\ clamped m M v <= M.
Proof.
  intros Emin Emax Hlt Hnan.
  destruct (clamp_fin g m M v Emin Emax Hlt Hnan)
    as [H | [q [-> [Hlo [Hhi [Hc Hq]]]]]].
  - split; [exact H|]. unfold clamped.
    destruct v as [q | [|] |]; try discriminate; try (split; lra).
    destruct (Qle_bool m q) eqn:A; [|split; lra].
    destruct (Qle_bool q M) eqn:B; [|split; lra].
    apply Qle_bool_iff in A. apply Qle_bool_iff in B. split; assumption.
  - rewrite Hq. split; [exact Hc|]. split; assumption.
Qed.

Lemma clamped_mono (m M : Q) (v1 v2 : double) :
  m < M -> le v1 v2 = true -> clamped m M v1 <= clamped m M v2.
Proof.
  intros Hlt H. unfold clamped.
  destruct v1 as [q1 | [|] |]; destruct v2 as [q2 | [|] |];
    cbn [le negb orb] in H; try discriminate;
    try (apply Qle_bool_iff in H);
    repeat match goal with
           | |- context [Qle_bool ?a ?b] =>
               let E := fresh "E" in
               destruct (Qle_bool a b) eqn:E;
               [apply Qle_bool_iff in E
               |assert (b < a)
                  by (apply Qnot_le_lt; intro L; apply Qle_bool_iff in L;
                      congruence); clear E]
           end; lra.
Qed.

Lemma clamped_at_bounds (m M : Q) :
  m < M -> clamped m M (Fin m) = m /\ clamped m M (Fin M) = M.
Proof.
  intro H. unfold clamped.
  assert (A : Qle_bool m m = true) by (apply Qle_bool_iff; lra).
  assert (B : Qle_bool m M = true) by (apply Qle_bool_iff; lra).
  assert (C : Qle_bool M M = true) by (apply Qle_bool_iff; lra).
  rewrite A, B, C. split; reflexivity.
Qed.

(** C3, as stated, fails on doubles.  On the gauge from 0 to 30 with the
    sweep from -210.5 to 30.1, [setValue(30)] leaves the needle just below
    [end_angle] (at 30.099999999999994); on the default gauge the values
    1e-20 and 2e-20 give the same angle, so the angle is not strictly
    increasing. *)
Lemma needle_angle_not_exact :
  (exists a,
     needle_after skewed_kwargs (Fin 30) = Return a /\
     eq a (arg_end_angle skewed_kwargs) = false /\
     lt a (arg_end_angle skewed_kwargs) = true) /\
  (exists a1 a2,
     lt tiny1 tiny2 = true /\
     needle_after defaults tiny1 = Return a1 /\
     needle_after defaults tiny2 = Return a2 /\
     lt a1 a2 = false /\ eq a1 a2 = true).
Proof.
  split.
  - eexists. split; [vm_compute; reflexivity|]. split; reflexivity.
  - eexists. eexists. split; [reflexivity|].
    split; [vm_compute; reflexivity|].
    split; [vm_compute; reflexivity|]. split; reflexivity.
Qed.

(** C3, amended.  On a gauge whose bounds and angles are finite doubles,
    with [min_value < max_value] and neither [max_value - min_value] nor
    [start_angle + angle_range] overflowing, the needle angle after
    [setValue] is a weakly monotone function of the value set (increasing
    when [angle_range >= 0], decreasing when [angle_range <= 0]) and stays
    between its two ends; after [setValue(min_value)] it equals
    [start_angle] and after [setValue(max_value)] it equals the float sum
    [start_angle + angle_range].  On the demo gauge (0 to 30, -210 to 30
    degrees) [setValue(30)] puts the needle at [end_angle] and
    [setValue(15)] at [start_angle + 0.5 * angle_range]. *)
Theorem needle_angle_on_doubles (w : Widget) (v1 v2 : double) :
  finite_double (min_value (gauge w)) ->
  finite_double (max_value (gauge w)) ->
  finite_double (start_angle (gauge w)) ->
  finite_double (angle_range (gauge w)) ->
  lt (min_value (gauge w)) (max_value (gauge w)) = true ->
  is_fin (sub (max_value (gauge w)) (min_value (gauge w))) = true ->
  is_fin (add (start_angle (gauge w)) (angle_range (gauge w))) = true ->
  is_nan v1 = false -> is_nan v2 = false -> le v1 v2 = true ->
  (exists a1 a2 amin amax,
     needle_angle (gauge (snd (setValue v1 w))) = Return a1 /\
     needle_angle (gauge (snd (setValue v2 w))) = Return a2 /\
     needle_angle (gauge (snd (setValue (min_value (gauge w)) w)))
       = Return amin /\
     needle_angle (gauge (snd (setValue (max_value (gauge w)) w)))
       = Return amax /\
     eq amin (start_angle (gauge w)) = true /\
     eq amax (add (start_angle (gauge w)) (angle_range (gauge w))) = true /\
     (le (Fin 0) (angle_range (gauge w)) = true ->
      le amin a1 = true /\ le a1 a2 = true /\ le a2 amax = true) /\
     (le (angle_range (gauge w)) (Fin 0) = true ->
      le amax a2 = true /\ le a2 a1 = true /\ le a1 amin = true)) /\
  needle_after demo_kwargs (Fin 30) = Return (arg_end_angle demo_kwargs) /\
  needle_after demo_kwargs (Fin 15)
    = Return (add (arg_start_angle demo_kwargs)
                  (mul (Fin (1 # 2))
                       (sub (arg_end_angle demo_kwargs)
                            (arg_start_angle demo_kwargs)))).
Proof.
  intros [m [Emin Hm]] [M [Emax HM]] [s [Est Hs]] [R [Era HR]]
         Hlt Hd He N1 N2 Hle.
  split; [|split; vm_compute; reflexivity].
  rewrite Emin, Emax in Hlt. apply lt_Fin in Hlt.
  rewrite Emin, Emax, sub_Fin in Hd. apply is_fin_round in Hd.
  rewrite Est, Era, add_Fin in He. pose proof He as He'.
  apply is_fin_round in He.
  destruct (clamp_value _ m M v1 Emin Emax Hlt N1) as [C1 [L1 U1]].
  destruct (clamp_value _ m M v2 Emin Emax Hlt N2) as [C2 [L2 U2]].
  pose proof (clamped_mono m M v1 v2 Hlt Hle) as Hx.
  destruct (clamped_at_bounds m M Hlt) as [Bm BM].
  assert (Cm : clamp (gauge w) (Fin m) = Fin m).
  { destruct (clamp_value _ m M (Fin m) Emin Emax Hlt eq_refl) as [H _].
    rewrite H, Bm. reflexivity. }
  assert (CM : clamp (gauge w) (Fin M) = Fin M).
  { destruct (clamp_value _ m M (Fin M) Emin Emax Hlt eq_refl) as [H _].
    rewrite H, BM. reflexivity. }
  assert (Lm : m <= m) by lra. assert (LM : m <= M) by lra.
  assert (UM : M <= M) by lra.
  destruct (needle_angle_fin _ m M s R _ Emin Emax Est Era Hm HM Hs HR Hlt
                             Hd He L1 U1) as [a1 [A1 E1]].
  destruct (needle_angle_fin _ m M s R _ Emin Emax Est Era Hm HM Hs HR Hlt
                             Hd He L2 U2) as [a2 [A2 E2]].
  destruct (needle_angle_fin _ m M s R _ Emin Emax Est Era Hm HM Hs HR Hlt
                             Hd He Lm LM) as [amin [Am Em]].
  destruct (needle_angle_fin _ m M s R _ Emin Emax Est Era Hm HM Hs HR Hlt
                             Hd He LM UM) as [amax [AM EM]].
  exists (Fin a1), (Fin a2), (Fin amin), (Fin amax).
  cbn [setValue snd gauge]. rewrite C1, C2, Emin, Emax, Cm, CM.
  split; [exact A1|]. split; [exact A2|].
  split; [exact Am|]. split; [exact AM|].
  pose proof (angle_at_min m M s R Hs) as Zmin.
  pose proof (angle_at_max m M s R Hm HM HR Hlt) as Zmax.
  destruct (angle_mono m M s R Hm HM Hlt _ _ L1) as [I1 D1].
  destruct (angle_mono m M s R Hm HM Hlt _ _ Hx) as [I2 D2].
  destruct (angle_mono m M s R Hm HM Hlt _ _ U2) as [I3 D3].
  rewrite Est, Era.
  split; [apply eq_Fin; rewrite Em; exact Zmin|].
  split.
  { rewrite add_Fin, (round_fin_finite _ He). apply eq_Fin.
    rewrite EM, Qred_correct. exact Zmax. }
  split; intro HRs; apply le_Fin in HRs; rewrite !le_Fin;
    rewrite E1, E2, Em, EM; auto.
Qed.

(** *** Integers as floats *)

Lemma of_int_finite (n : Z) :
  is_fin (float_of n) = true -> of_int n = Return (float_of n).
Proof.
  unfold of_int. destruct (float_of n); [reflexivity | discriminate..].
Qed.

Lemma of_int_inv (n : Z) (a : double) :
  of_int n = Return a -> a = float_of n /\ is_fin (float_of n) = true.
Proof.
  unfold of_int. destruct (float_of n); [|discriminate..].
  intro H. injection H as <-. split; reflexivity.
Qed.

Lemma of_int_raises (n : Z) (e : exn) :
  of_int n = Raise e -> e = OverflowError.
Proof.
  unfold of_int. destruct (float_of n); [discriminate|..];
    intro H; injection H as <-; reflexivity.
Qed.

Lemma float_of_between (n k : Z) :
  (0 <= k <= n)%Z -> is_fin (float_of n) = true ->
  is_fin (float_of k) = true.
Proof.
  intros [H0 Hk] Hn. apply is_fin_round in Hn. unfold float_of.
  rewrite round_fin_finite; [reflexivity|].
  apply Qabs_Qlt_condition in Hn. apply Qabs_Qlt_condition.
  assert (P0 : 0 <= rnd (inject_Z k)).
  { apply rnd_nonneg. change 0 with (inject_Z 0). rewrite <- Zle_Qle.
    exact H0. }
  assert (P1 : rnd (inject_Z k) <= rnd (inject_Z n)).
  { apply rnd_mono. rewrite <- Zle_Qle. exact Hk. }
  pose proof (pow2_pos 1024) as Pp.
  destruct Hn as [_ Hn]. split; lra.
Qed.

Lemma representable_m1 : representable (-(1)).
Proof. reflexivity. Qed.

Lemma float_of_nonzero (n : Z) : n <> 0%Z -> is_zero (float_of n) = false.
Proof.
  intro Hn. unfold float_of, round_fin.
  destruct (Qle_bool (pow2 1024) (Qabs (rnd (inject_Z n))));
    [reflexivity|].
  cbn [is_zero]. destruct (Qeq_bool (Qred (rnd (inject_Z n))) 0) eqn:E;
    [|reflexivity].
  apply Qeq_bool_iff in E. rewrite Qred_correct in E. exfalso.
  destruct (Z_lt_le_dec n 0) as [L | L].
  - assert (H : rnd (inject_Z n) <= -(1)).
    { apply rnd_le_representable; [apply representable_m1|].
      change (-(1)) with (inject_Z (-1)). rewrite <- Zle_Qle. lia. }
    lra.
  - assert (H : 1 <= rnd (inject_Z n)).
    { apply rnd_ge_representable; [apply representable_1|].
      change 1 with (inject_Z 1). rewrite <- Zle_Qle. lia. }
    lra.
Qed.

Lemma div_by_steps (a : double) (n : Z) :
  n <> 0%Z -> div a (float_of n) = Return (quot a (float_of n)).
Proof. intro H. unfold div. rewrite (float_of_nonzero n H). reflexivity. Qed.

Lemma half_bounds (q : Q) :
  (q < 0 -> q <= q / 2 /\ q / 2 <= 0) /\
  (0 <= q -> 0 <= q / 2 /\ q / 2 <= q).
Proof.
  assert (E : q / 2 == q * (1 # 2)) by field.
  rewrite E. split; intros; split; lra.
Qed.

Lemma half_finite (t : Z) :
  is_fin (float_of t) = true ->
  is_fin (round_fin (inject_Z t / inject_Z 2)) = true.
Proof.
  intro Ht. apply is_fin_round in Ht.
  rewrite round_fin_finite; [reflexivity|].
  apply Qabs_Qlt_condition in Ht. apply Qabs_Qlt_condition.
  pose proof (pow2_pos 1024) as Pp. change (inject_Z 2) with 2.
  destruct (half_bounds (inject_Z t)) as [Hneg Hpos].
  destruct (Qlt_le_dec (inject_Z t) 0) as [L | L].
  - destruct (Hneg L) as [B1 B2].
    pose proof (rnd_nonpos _ B2) as P0.
    pose proof (rnd_mono _ _ B1) as P1.
    destruct Ht as [Ht _]. split; lra.
  - destruct (Hpos L) as [B1 B2].
    pose proof (rnd_nonneg _ B1) as P0.
    pose proof (rnd_mono _ _ B2) as P1.
    destruct Ht as [_ Ht]. split; lra.
Qed.

Lemma truediv_int_half (t : Z) :
  is_fin (float_of t) = true ->
  truediv_int t 2 = Return (round_fin (inject_Z t / inject_Z 2)).
Proof.
  intro Ht. apply half_finite in Ht. unfold truediv_int.
  change (2 =? 0)%Z with false. cbv iota.
  destruct (round_fin (inject_Z t / inject_Z 2)); [reflexivity|discriminate..].
Qed.

Lemma truediv_int_raises (t : Z) (e : exn) :
  truediv_int t 2 = Raise e -> e = OverflowError.
Proof.
  unfold truediv_int. change (2 =? 0)%Z with false. cbv iota.
  destruct (round_fin (inject_Z t / inject_Z 2)); [discriminate|..];
    intro H; injection H as <-; reflexivity.
Qed.

Lemma range_bounds (n i : Z) : In i (Py.range n) -> (0 <= i < n)%Z.
Proof.
  unfold Py.range. intro H. apply in_map_iff in H.
  destruct H as [k [<- Hk]]. apply in_seq in Hk. lia.
Qed.

Lemma range_length64 (n : Z) : List.length (Py.range n) = Z.to_nat n.
Proof. unfold Py.range. rewrite length_map, length_seq. reflexivity. Qed.

Lemma range_nth64 {A} (f : Z -> A) (n i : Z) :
  (0 <= i < n)%Z ->
  nth_error (map f (Py.range n)) (Z.to_nat i) = Some (f i).
Proof.
  intro H. unfold Py.range. rewrite map_map.
  rewrite nth_error_map.
  rewrite nth_error_seq.
  destruct (Nat.ltb_spec (Z.to_nat i) (Z.to_nat n)) as [L | L]; [|lia].
  cbn. rewrite Z2Nat.id by lia. reflexivity.
Qed.

(** The ratio of the needle is computed on every gauge: the test on the
    range comes before the division. *)
Lemma needle_angle_total (self : CircularGauge) :
  exists r,
    value_ratio self = Return r /\
    needle_angle self
      = Return (add (start_angle self) (mul r (angle_range self))).
Proof.
  unfold needle_angle, value_ratio, div.
  destruct (sub (max_value self) (min_value self)) as [q | s |];
    cbn [eq is_zero].
  - destruct (Qeq_bool q 0); eexists; split; reflexivity.
  - eexists; split; reflexivity.
  - eexists; split; reflexivity.
Qed.

(** *** The text of a label *)

Lemma rhe_tie_even (x : Q) :
  Qabs (x - inject_Z (Py.round_half_even x)) == 1 # 2 ->
  Z.even (Py.round_half_even x) = true.
Proof.
  pose proof (Qfloor_le x) as Hlo. pose proof (Qlt_floor x) as Hhi.
  rewrite inject_Z_plus in Hhi. change (inject_Z 1) with 1 in Hhi.
  unfold Py.round_half_even.
  destruct (Qcompare_spec (x - inject_Z (Qfloor x)) (1 # 2)) as [E | L | G].
  - intros _. destruct (Z.even (Qfloor x)) eqn:Ev; [exact Ev|].
    rewrite Z.add_1_r, Z.even_succ, <- Z.negb_even, Ev. reflexivity.
  - intro H. exfalso. rewrite Qabs_pos in H.
    + generalize dependent (inject_Z (Qfloor x)). intros. lra.
    + generalize dependent (inject_Z (Qfloor x)). intros. lra.
  - intro H. exfalso. rewrite inject_Z_plus in H.
    change (inject_Z 1) with 1 in H. rewrite Qabs_neg in H.
    + generalize dependent (inject_Z (Qfloor x)). intros. lra.
    + generalize dependent (inject_Z (Qfloor x)). intros. lra.
Qed.

(** The text [.0f] gives for a finite value is the value with no
    decimals. *)
Lemma format_0f_shows (q : Q) : shows_rounded q (format_0f (Fin q)).
Proof.
  exists (Py.round_half_even q).
  split; [apply round_half_even_nearest|].
  split; [apply rhe_tie_even|].
  cbn [format_0f]. unfold Py.format_0f, Py.digits, Py.lt.
  destruct (Qlt_le_dec q 0) as [L | L].
  - destruct (Qle_bool 0 q) eqn:E; [|reflexivity].
    apply Qle_bool_iff in E. exfalso. lra.
  - destruct (Qle_bool 0 q) eqn:E; [reflexivity|].
    apply Qle_bool_iff in L. congruence.
Qed.

Section Frames.

Variables cos_fin sin_fin : Q -> Q.

Lemma math_cos_returns (x : double) :
  is_inf x = false -> math_cos cos_fin x = Return (cos_of cos_fin x).
Proof. intro H. unfold math_cos. rewrite H. reflexivity. Qed.

Lemma math_sin_returns (x : double) :
  is_inf x = false -> math_sin sin_fin x = Return (sin_of sin_fin x).
Proof. intro H. unfold math_sin. rewrite H. reflexivity. Qed.

(** *** What a paint emits when nothing fails *)

Lemma emits_ret64 {A} (a : A) : emits (ret a) a [].
Proof. intro tr. unfold ret. rewrite app_nil_r. reflexivity. Qed.

Lemma emits_bind64 {A B} (m : Paint A) (k : A -> Paint B) a b ops1 ops2 :
  emits m a ops1 -> emits (k a) b ops2 -> emits (bind m k) b (ops1 ++ ops2).
Proof.
  intros Hm Hk tr. unfold bind. rewrite Hm, Hk, app_assoc. reflexivity.
Qed.

Lemma emits_for_each64 {A} (body : A -> Paint unit)
      (f : A -> list painter_call) (l : list A) :
  (forall x, In x l -> emits (body x) tt (f x)) ->
  emits (for_each l body) tt (flat_map f l).
Proof.
  induction l as [|x l IH]; intro H; cbn [for_each flat_map].
  - apply emits_ret64.
  - apply emits_bind64 with (a := tt).
    + apply H. left. reflexivity.
    + apply IH. intros y Hy. apply H. right. exact Hy.
Qed.

Ltac paint_step := cbn [bind call lift ret no_fault].

Lemma drawOuterArc_emits64 (self : CircularGauge) (r : double) :
  is_fin (float_of (outer_circle_thickness self)) = true ->
  emits (drawOuterArc self r) tt (outer_arc_calls self r).
Proof.
  intros Ht tr. unfold drawOuterArc, outer_arc_calls, brush_of.
  paint_step. rewrite (of_int_finite _ Ht).
  destruct (outer_circle_brush_color self); paint_step;
    repeat rewrite <- app_assoc; reflexivity.
Qed.

Lemma drawOuterArc2_emits64 (self : CircularGauge) (r : double) :
  is_fin (float_of (outer_circle_thickness self)) = true ->
  emits (drawOuterArc2 self r) tt (outer_arc2_calls self r).
Proof.
  intros Ht tr. unfold drawOuterArc2, outer_arc2_calls.
  paint_step. rewrite (truediv_int_half _ Ht). paint_step.
  repeat rewrite <- app_assoc. reflexivity.
Qed.

Lemma tick_emits64 (self : CircularGauge) (r : double) (i : Z) :
  is_fin (float_of i) = true ->
  is_inf (radians (tick_angle self i)) = false ->
  emits (tick cos_fin sin_fin self r
              (quot (angle_range self) (float_of (steps self))) i) tt
        (tick_calls cos_fin sin_fin self r i).
Proof.
  intros Hi Ha tr. unfold tick, tick_calls, tick_segment.
  paint_step. rewrite (of_int_finite _ Hi). paint_step.
  fold (tick_angle self i).
  rewrite (math_cos_returns _ Ha), (math_sin_returns _ Ha). paint_step.
  repeat rewrite <- app_assoc. reflexivity.
Qed.

Lemma number_emits64 (self : CircularGauge) (r : double) (i : Z) :
  steps self <> 0%Z ->
  is_fin (float_of (steps self)) = true ->
  is_fin (float_of i) = true ->
  is_inf (radians (tick_angle self i)) = false ->
  emits (number cos_fin sin_fin self r
                (quot (angle_range self) (float_of (steps self))) i) tt
        (number_calls cos_fin sin_fin self r i).
Proof.
  intros Hs Hf Hi Ha tr. unfold number, number_calls, label_text, label_value.
  paint_step. rewrite (of_int_finite _ Hi). paint_step.
  rewrite (of_int_finite _ Hf). paint_step.
  rewrite (div_by_steps _ _ Hs). paint_step.
  fold (tick_angle self i).
  rewrite (math_cos_returns _ Ha), (math_sin_returns _ Ha). paint_step.
  repeat rewrite <- app_assoc. reflexivity.
Qed.

Lemma drawTicks_emits64 (self : CircularGauge) (r : double) :
  ticks_defined self ->
  emits (drawTicks cos_fin sin_fin self r) tt
        (ticks_calls cos_fin sin_fin self r).
Proof.
  intros [Hs [Hf Ha]] tr. unfold drawTicks, ticks_calls.
  paint_step. rewrite (of_int_finite _ Hf). paint_step.
  rewrite (div_by_steps _ _ Hs). paint_step.
  unfold bind at 1.
  rewrite (emits_for_each64
             (tick cos_fin sin_fin self r
                   (quot (angle_range self) (float_of (steps self))))
             (tick_calls cos_fin sin_fin self r)).
  - paint_step. repeat rewrite <- app_assoc. reflexivity.
  - intros i Hi. apply range_bounds in Hi.
    apply tick_emits64.
    + apply float_of_between with (n := steps self); [lia | exact Hf].
    + apply Ha. lia.
Qed.

Lemma drawNumbers_emits64 (self : CircularGauge) (r : double) :
  ticks_defined self ->
  emits (drawNumbers cos_fin sin_fin self r) tt
        (numbers_calls cos_fin sin_fin self r).
Proof.
  intros [Hs [Hf Ha]] tr. unfold drawNumbers, numbers_calls.
  paint_step. rewrite (of_int_finite _ Hf). paint_step.
  rewrite (div_by_steps _ _ Hs). paint_step.
  unfold bind at 1.
  rewrite (emits_for_each64
             (number cos_fin sin_fin self r
                     (quot (angle_range self) (float_of (steps self))))
             (number_calls cos_fin sin_fin self r)).
  - paint_step. repeat rewrite <- app_assoc. reflexivity.
  - intros i Hi. apply range_bounds in Hi.
    apply number_emits64; [exact Hs | exact Hf | |].
    + apply float_of_between with (n := steps self); [lia | exact Hf].
    + apply Ha. lia.
Qed.

Lemma drawNeedle_emits64 (self : CircularGauge) (r angle : double) :
  needle_angle self = Return angle ->
  emits (drawNeedle self r) tt (needle_calls self r angle).
Proof.
  intros Ha tr. unfold drawNeedle, needle_calls, brush_of.
  paint_step. rewrite Ha.
  destruct (inner_ring_brush_color self);
    destruct (inner_circle_brush_color self); paint_step;
    repeat rewrite <- app_assoc; reflexivity.
Qed.

Lemma paint_body_emits64 (self : CircularGauge) (rect : QRect)
      (angle : double) :
  ticks_defined self ->
  is_fin (float_of (outer_circle_thickness self)) = true ->
  needle_angle self = Return angle ->
  emits (paint_body cos_fin sin_fin self rect) tt
        (frame_of cos_fin sin_fin self rect angle).
Proof.
  intros Hd Ht Ha tr. unfold paint_body, frame_of, dial_calls.
  paint_step. rewrite (of_int_finite _ Ht). paint_step.
  fold (radius_of self rect).
  unfold bind at 1.
  rewrite (drawOuterArc_emits64 self (radius_of self rect) Ht).
  unfold bind at 1.
  rewrite (drawTicks_emits64 self (radius_of self rect) Hd).
  unfold bind at 1.
  rewrite (drawNumbers_emits64 self (radius_of self rect) Hd).
  unfold bind at 1.
  rewrite (drawOuterArc2_emits64 self (radius_of self rect) Ht).
  rewrite (drawNeedle_emits64 self (radius_of self rect) angle Ha).
  repeat rewrite <- app_assoc. reflexivity.
Qed.

(** Only [drawTicks] draws lines and only [drawNumbers] draws text. *)
Lemma lines_of_ticks64 (self : CircularGauge) (r : double) (l : list Z) :
  filter is_drawLine (flat_map (tick_calls cos_fin sin_fin self r) l)
  = map (tick_segment cos_fin sin_fin self r) l.
Proof.
  induction l as [|i l IH]; [reflexivity|].
  cbn [flat_map map]. rewrite filter_app, IH. reflexivity.
Qed.

Lemma texts_of_ticks64 (self : CircularGauge) (r : double) (l : list Z) :
  filter is_drawText (flat_map (tick_calls cos_fin sin_fin self r) l) = [].
Proof.
  induction l as [|i l IH]; [reflexivity|].
  cbn [flat_map]. rewrite filter_app, IH. reflexivity.
Qed.

Lemma lines_of_numbers64 (self : CircularGauge) (r : double) (l : list Z) :
  filter is_drawLine (flat_map (number_calls cos_fin sin_fin self r) l) = [].
Proof.
  induction l as [|i l IH]; [reflexivity|].
  cbn [flat_map]. rewrite filter_app, IH. reflexivity.
Qed.

Lemma texts_of_numbers64 (self : CircularGauge) (r : double) (l : list Z) :
  filter is_drawText (flat_map (number_calls cos_fin sin_fin self r) l)
  = map (label_text self) l.
Proof.
  induction l as [|i l IH]; [reflexivity|].
  cbn [flat_map map]. rewrite filter_app, IH. reflexivity.
Qed.

Lemma needle_no_line_no_text64 (self : CircularGauge) (r angle : double) :
  filter is_drawLine (needle_calls self r angle) = [] /\
  filter is_drawText (needle_calls self r angle) = [].
Proof.
  unfold needle_calls.
  destruct (inner_circle_brush_color self); split; reflexivity.
Qed.

Lemma lines_of_frame64 (self : CircularGauge) (rect : QRect)
      (angle : double) :
  filter is_drawLine (frame_of cos_fin sin_fin self rect angle)
  = map (tick_segment cos_fin sin_fin self (radius_of self rect))
        (Py.range (steps self + 1)).
Proof.
  unfold frame_of, dial_calls, ticks_calls, numbers_calls.
  repeat rewrite filter_app.
  rewrite lines_of_ticks64, lines_of_numbers64.
  rewrite (proj1 (needle_no_line_no_text64 self (radius_of self rect) angle)).
  unfold outer_arc_calls, outer_arc2_calls.
  cbn [filter is_drawLine app]. repeat rewrite app_nil_r. reflexivity.
Qed.

Lemma texts_of_frame64 (self : CircularGauge) (rect : QRect)
      (angle : double) :
  filter is_drawText (frame_of cos_fin sin_fin self rect angle)
  = map (label_text self) (Py.range (steps self + 1)).
Proof.
  unfold frame_of, dial_calls, ticks_calls, numbers_calls.
  repeat rewrite filter_app.
  rewrite texts_of_ticks64, texts_of_numbers64.
  rewrite (proj2 (needle_no_line_no_text64 self (radius_of self rect) angle)).
  unfold outer_arc_calls, outer_arc2_calls.
  cbn [filter is_drawText app]. repeat rewrite app_nil_r. reflexivity.
Qed.

(** *** The paint callback when nothing fails *)

Lemma paintEvent_no_fault64 (w : Widget) (rect : QRect) (angle : double) :
  ticks_defined (gauge w) ->
  is_fin (float_of (outer_circle_thickness (gauge w))) = true ->
  needle_angle (gauge w) = Return angle ->
  paintEvent cos_fin sin_fin no_fault rect w =
    (Return tt,
     {| gauge := gauge w;
        update_requests := update_requests w;
        frames :=
          frames w ++ [frame_of cos_fin sin_fin (gauge w) rect angle];
        stdout := stdout w |}).
Proof.
  intros Hd Ht Ha. unfold paintEvent.
  rewrite (paint_body_emits64 (gauge w) rect angle Hd Ht Ha []).
  reflexivity.
Qed.

(** What a label reads, whatever its value. *)
Lemma label_text_reads (self : CircularGauge) (i : Z) :
  exists text,
    label_text self i
      = drawText (mkRectF (Fin (-(15))) (Fin (-(15))) (Fin 34) (Fin 34))
                 text /\
    text = format_0f (label_value self i) /\
    (forall q, label_value self i = Fin q -> shows_rounded q text) /\
    (label_value self i = Inf false -> text = "inf"%string) /\
    (label_value self i = Inf true -> text = "-inf"%string) /\
    (label_value self i = NaN -> text = "nan"%string).
Proof.
  exists (format_0f (label_value self i)).
  split; [reflexivity|]. split; [reflexivity|].
  split; [|split; [|split]]; intros; rewrite H.
  - apply format_0f_shows.
  - reflexivity.
  - reflexivity.
  - reflexivity.
Qed.

(** C6, amended.  On a toolkit that does not fail, for a gauge with
    [steps >= 1] whose [steps] and [outer_circle_thickness] have a float
    and none of whose ticks is at an infinite angle, the bounds being as
    the guard of the constructor lets them through (which keeps the value
    of a label away from the negative zero, which [B64] does not tell from
    zero), one paint returns, prints nothing, and draws [steps + 1] line
    segments and [steps + 1] texts.  The segment of index [i] is the tick at the float angle
    [start_angle + i * (angle_range / steps)], from radius [r - 10] to
    radius [r]; the text of index [i] shows the float
    [min_value + i * (max_value - min_value) / steps] with no decimals:
    when that float is finite, the digits of the integer nearest to it
    (the even one at a tie) after the sign of the float, and [inf], [-inf]
    or [nan] when it is not. *)
Theorem ticks_and_labels_on_doubles (w : Widget) (rect : QRect) :
  (1 <= steps (gauge w))%Z ->
  ge (min_value (gauge w)) (max_value (gauge w)) = false ->
  is_fin (float_of (steps (gauge w))) = true ->
  is_fin (float_of (outer_circle_thickness (gauge w))) = true ->
  (forall i, (0 <= i <= steps (gauge w))%Z ->
     is_inf (radians (tick_angle (gauge w) i)) = false) ->
  exists frame,
    fst (paintEvent cos_fin sin_fin no_fault rect w) = Return tt /\
    frames (snd (paintEvent cos_fin sin_fin no_fault rect w))
      = frames w ++ [frame] /\
    stdout (snd (paintEvent cos_fin sin_fin no_fault rect w)) = stdout w /\
    List.length (filter is_drawLine frame)
      = Z.to_nat (steps (gauge w) + 1) /\
    List.length (filter is_drawText frame)
      = Z.to_nat (steps (gauge w) + 1) /\
    forall i : Z, (0 <= i <= steps (gauge w))%Z ->
      nth_error (filter is_drawLine frame) (Z.to_nat i)
        = Some (tick_segment cos_fin sin_fin (gauge w)
                             (radius_of (gauge w) rect) i) /\
      exists text,
        nth_error (filter is_drawText frame) (Z.to_nat i)
          = Some (drawText
                    (mkRectF (Fin (-(15))) (Fin (-(15))) (Fin 34) (Fin 34))
                    text) /\
        text = format_0f (label_value (gauge w) i) /\
        (forall q, label_value (gauge w) i = Fin q ->
                   shows_rounded q text) /\
        (label_value (gauge w) i = Inf false -> text = "inf"%string) /\
        (label_value (gauge w) i = Inf true -> text = "-inf"%string) /\
        (label_value (gauge w) i = NaN -> text = "nan"%string).
Proof.
  intros Hs _ Hf Ht Ha.
  assert (Hd : ticks_defined (gauge w)).
  { split; [lia|]. split; [exact Hf | exact Ha]. }
  destruct (needle_angle_total (gauge w)) as [r [_ Hn]].
  rewrite (paintEvent_no_fault64 w rect _ Hd Ht Hn).
  eexists. cbn [fst snd frames stdout].
  split; [reflexivity|]. split; [reflexivity|]. split; [reflexivity|].
  rewrite lines_of_frame64, texts_of_frame64.
  rewrite !length_map, range_length64.
  split; [reflexivity|]. split; [reflexivity|].
  intros i Hi. split; [apply range_nth64; lia|].
  destruct (label_text_reads (gauge w) i) as [text [E H]].
  exists text. split; [|exact H].
  rewrite <- E. apply range_nth64. lia.
Qed.

(** *** What a paint can raise *)

Lemma math_cos_raises (x : double) (e : exn) :
  math_cos cos_fin x = Raise e -> e = ValueError "math domain error".
Proof.
  unfold math_cos. destruct (is_inf x); [|discriminate].
  intro H. injection H as <-. reflexivity.
Qed.

Lemma math_sin_raises (x : double) (e : exn) :
  math_sin sin_fin x = Raise e -> e = ValueError "math domain error".
Proof.
  unfold math_sin. destruct (is_inf x); [|discriminate].
  intro H. injection H as <-. reflexivity.
Qed.

Lemma div_raises (a b : double) (e : exn) :
  div a b = Raise e -> e = ZeroDivisionError /\ is_zero b = true.
Proof.
  unfold div. destruct (is_zero b); [|discriminate].
  intro H. injection H as <-. split; reflexivity.
Qed.

(** The division by [steps] raises when [steps] is zero only. *)
Lemma div_by_steps_raises (n : Z) (a fsteps : double) (e : exn) :
  of_int n = Return fsteps -> div a fsteps = Raise e ->
  e = ZeroDivisionError /\ n = 0%Z.
Proof.
  intros Hf Hd. apply of_int_inv in Hf. destruct Hf as [-> _].
  apply div_raises in Hd. destruct Hd as [-> Hz]. split; [reflexivity|].
  destruct (Z.eq_dec n 0) as [E | E]; [exact E|].
  rewrite (float_of_nonzero n E) in Hz. discriminate.
Qed.

Lemma needle_angle_raises (self : CircularGauge) (e : exn) :
  needle_angle self <> Raise e.
Proof.
  destruct (needle_angle_total self) as [r [_ H]]. rewrite H. discriminate.
Qed.

Section Raises.

Variable tk : toolkit.
Variable P : exn -> Prop.
Hypothesis Htk : forall tr c e, tk tr c = Some e -> P e.
Hypothesis HOverflow : P OverflowError.
Hypothesis HDomain : P (ValueError "math domain error").

Lemma raises_ret {A} (a : A) : raises_only tk P (ret a).
Proof. intros tr e tr' H. discriminate. Qed.

Lemma raises_call (c : painter_call) : raises_only tk P (call c).
Proof.
  intros tr e tr' H. unfold call in H.
  destruct (tk tr c) eqn:E; [|discriminate].
  injection H as <- _. exact (Htk _ _ _ E).
Qed.

Lemma raises_bind {A B} (m : Paint A) (k : A -> Paint B) :
  raises_only tk P m -> (forall a, raises_only tk P (k a)) ->
  raises_only tk P (bind m k).
Proof.
  intros Hm Hk tr e tr' H. unfold bind in H.
  destruct (m tk tr) as [[a | e0] tr0] eqn:E.
  - exact (Hk a _ _ _ H).
  - injection H as <- <-. exact (Hm _ _ _ E).
Qed.

Lemma raises_lift_bind {A B} (o : outcome A) (k : A -> Paint B) :
  (forall e, o = Raise e -> P e) ->
  (forall a, o = Return a -> raises_only tk P (k a)) ->
  raises_only tk P (bind (lift o) k).
Proof.
  intros Ho Hk tr e tr' H. unfold bind, lift in H.
  destruct o as [a | e0].
  - exact (Hk a eq_refl _ _ _ H).
  - injection H as <- _. apply Ho. reflexivity.
Qed.

Lemma raises_for_each {A} (l : list A) (body : A -> Paint unit) :
  (forall x, raises_only tk P (body x)) ->
  raises_only tk P (for_each l body).
Proof.
  intro H. induction l as [|x l IH]; cbn [for_each].
  - apply raises_ret.
  - apply raises_bind; [apply H | intros _; exact IH].
Qed.

Ltac raises_calls :=
  repeat first
    [ apply raises_call
    | apply raises_ret
    | apply raises_bind; [|intros _] ].

Ltac raises_of_int :=
  apply raises_lift_bind;
  [ let e := fresh "e" in let H := fresh "H" in
    intros e H; apply of_int_raises in H; subst e; exact HOverflow
  | ].

Ltac raises_cos :=
  apply raises_lift_bind;
  [ let e := fresh "e" in let H := fresh "H" in
    intros e H;
    first [apply math_cos_raises in H | apply math_sin_raises in H];
    subst e; exact HDomain
  | intros ? _; cbv zeta ].

Lemma drawOuterArc_raises (self : CircularGauge) (r : double) :
  raises_only tk P (drawOuterArc self r).
Proof.
  unfold drawOuterArc. cbv zeta. raises_of_int. intros width _.
  apply raises_bind; [apply raises_call | intros _].
  apply raises_bind;
    [destruct (outer_circle_brush_color self); apply raises_call
    | intros _].
  raises_calls.
Qed.

Lemma drawOuterArc2_raises (self : CircularGauge) (r : double) :
  raises_only tk P (drawOuterArc2 self r).
Proof.
  unfold drawOuterArc2. cbv zeta.
  apply raises_lift_bind.
  - intros e H. apply truediv_int_raises in H. subst e. exact HOverflow.
  - intros width _. raises_calls.
Qed.

Lemma tick_raises (self : CircularGauge) (r angle_step : double) (i : Z) :
  raises_only tk P (tick cos_fin sin_fin self r angle_step i).
Proof.
  unfold tick. apply raises_bind; [apply raises_call | intros _].
  raises_of_int. intros fi _. cbv zeta.
  raises_cos. raises_cos. raises_cos. raises_cos. raises_calls.
Qed.

Lemma drawTicks_raises (self : CircularGauge) (r : double) :
  (steps self = 0%Z -> P ZeroDivisionError) ->
  raises_only tk P (drawTicks cos_fin sin_fin self r).
Proof.
  intro HZ. unfold drawTicks.
  apply raises_bind; [apply raises_call | intros _].
  apply raises_lift_bind.
  { intros e H. apply of_int_raises in H. subst e. exact HOverflow. }
  intros fsteps Hf. apply raises_lift_bind.
  { intros e H. destruct (div_by_steps_raises _ _ _ _ Hf H) as [-> Hz].
    exact (HZ Hz). }
  intros angle_step _.
  apply raises_bind; [|intros _; apply raises_call].
  apply raises_for_each. intro i. apply tick_raises.
Qed.

Lemma number_raises (self : CircularGauge) (r angle_step : double) (i : Z) :
  (steps self = 0%Z -> P ZeroDivisionError) ->
  raises_only tk P (number cos_fin sin_fin self r angle_step i).
Proof.
  intro HZ. unfold number.
  raises_of_int. intros fi _. cbv zeta.
  raises_of_int. intros fi' _.
  apply raises_lift_bind.
  { intros e H. apply of_int_raises in H. subst e. exact HOverflow. }
  intros fsteps Hf. apply raises_lift_bind.
  { intros e H. destruct (div_by_steps_raises _ _ _ _ Hf H) as [-> Hz].
    exact (HZ Hz). }
  intros q _. cbv zeta.
  raises_cos. raises_cos. raises_calls.
Qed.

Lemma drawNumbers_raises (self : CircularGauge) (r : double) :
  (steps self = 0%Z -> P ZeroDivisionError) ->
  raises_only tk P (drawNumbers cos_fin sin_fin self r).
Proof.
  intro HZ. unfold drawNumbers.
  apply raises_bind; [apply raises_call | intros _].
  apply raises_bind; [apply raises_call | intros _].
  apply raises_lift_bind.
  { intros e H. apply of_int_raises in H. subst e. exact HOverflow. }
  intros fsteps Hf. apply raises_lift_bind.
  { intros e H. destruct (div_by_steps_raises _ _ _ _ Hf H) as [-> Hz].
    exact (HZ Hz). }
  intros angle_step _.
  apply raises_bind; [apply raises_call | intros _].
  apply raises_bind; [|intros _; apply raises_call].
  apply raises_for_each. intro i. apply number_raises. exact HZ.
Qed.

Lemma drawNeedle_raises (self : CircularGauge) (r : double) :
  raises_only tk P (drawNeedle self r).
Proof.
  unfold drawNeedle.
  apply raises_bind; [apply raises_call | intros _].
  apply raises_lift_bind.
  { intros e H. exfalso. exact (needle_angle_raises self e H). }
  intros angle _. cbv zeta.
  do 21 (apply raises_bind; [apply raises_call | intros _]).
  apply raises_bind;
    [destruct (inner_ring_brush_color self); apply raises_call
    | intros _].
  apply raises_bind; [apply raises_call | intros _].
  apply raises_bind; [|intros _; apply raises_call].
  destruct (inner_circle_brush_color self); raises_calls.
Qed.

(** Whatever the body of [paintEvent] raises was raised by the toolkit, or
    is the overflow of an integer that has no float, the domain error of
    [math.cos] and [math.sin], or, when [steps] is zero, the division
    error. *)
Lemma paint_body_raises (self : CircularGauge) (rect : QRect) :
  (steps self = 0%Z -> P ZeroDivisionError) ->
  raises_only tk P (paint_body cos_fin sin_fin self rect).
Proof.
  intro HZ. unfold paint_body.
  apply raises_bind; [apply raises_call | intros _].
  apply raises_bind; [apply raises_call | intros _].
  cbv zeta. raises_of_int. intros thickness _.
  apply raises_bind; [apply raises_call | intros _].
  apply raises_bind; [apply drawOuterArc_raises | intros _].
  apply raises_bind; [apply drawTicks_raises; exact HZ | intros _].
  apply raises_bind; [apply drawNumbers_raises; exact HZ | intros _].
  apply raises_bind; [apply drawOuterArc2_raises | intros _].
  apply drawNeedle_raises.
Qed.

End Raises.


(** With [steps = 0] a paint stops in [drawTicks], after the arc. *)
Lemma paintEvent_zero_steps64 (w : Widget) (rect : QRect) :
  steps (gauge w) = 0%Z ->
  is_fin (float_of (outer_circle_thickness (gauge w))) = true ->
  paintEvent cos_fin sin_fin no_fault rect w =
    (Return tt,
     {| gauge := gauge w;
        update_requests := update_requests w;
        frames :=
          frames w
          ++ [[QPainter_on_widget; setRenderHint_Antialiasing;
               translate_QPoint (fst (center rect)) (snd (center rect))]
              ++ outer_arc_calls (gauge w) (radius_of (gauge w) rect)
              ++ [save]];
        stdout := stdout w ++ [Error_in_paintEvent ZeroDivisionError] |}).
Proof.
  intros Hz Ht. unfold paintEvent, paint_body.
  paint_step. rewrite (of_int_finite _ Ht). paint_step.
  fold (radius_of (gauge w) rect).
  unfold bind at 1.
  rewrite (drawOuterArc_emits64 (gauge w) (radius_of (gauge w) rect) Ht).
  unfold drawTicks. rewrite Hz.
  change (of_int 0) with (Return (A := double) (Fin 0)).
  paint_step. unfold div. cbn [is_zero]. change (Qeq_bool 0 0) with true.
  cbv iota. paint_step. cbn [is_Exception].
  repeat rewrite <- app_assoc. reflexivity.
Qed.

Lemma printed_grows (l : list printed) (e : exn) :
  l ++ [Error_in_paintEvent e] <> l.
Proof.
  intro H. apply (f_equal (@List.length printed)) in H.
  rewrite length_app in H. cbn in H. lia.
Qed.

(** X16: on a toolkit that does not fail a paint always returns, and
    prints at most one line; the error it prints is the overflow of an
    integer with no float, the domain error of [math.cos], or the division
    error, which it prints when [steps] is zero and only then (the
    thickness having a float).  It prints nothing when [steps] is not zero
    and has a float, the thickness has one and no tick is at an infinite
    angle. *)
Theorem paint_errors_of_widget (w : Widget) (rect : QRect) :
  fst (paintEvent cos_fin sin_fin no_fault rect w) = Return tt /\
  (stdout (snd (paintEvent cos_fin sin_fin no_fault rect w)) = stdout w \/
   exists e,
     stdout (snd (paintEvent cos_fin sin_fin no_fault rect w))
       = stdout w ++ [Error_in_paintEvent e] /\
     (e = OverflowError \/
      e = ValueError "math domain error" \/
      (e = ZeroDivisionError /\ steps (gauge w) = 0%Z))) /\
  (steps (gauge w) = 0%Z ->
   is_fin (float_of (outer_circle_thickness (gauge w))) = true ->
   stdout (snd (paintEvent cos_fin sin_fin no_fault rect w))
     = stdout w ++ [Error_in_paintEvent ZeroDivisionError]) /\
  (ticks_defined (gauge w) ->
   is_fin (float_of (outer_circle_thickness (gauge w))) = true ->
   stdout (snd (paintEvent cos_fin sin_fin no_fault rect w)) = stdout w).
Proof.
  split; [|split; [|split]].
  - pose (P := fun e : exn => is_Exception e = true).
    assert (HP : raises_only no_fault P
                   (paint_body cos_fin sin_fin (gauge w) rect)).
    { apply paint_body_raises;
        [intros tr c e H; discriminate | reflexivity | reflexivity
        | intros _; reflexivity]. }
    unfold paintEvent.
    destruct (paint_body cos_fin sin_fin (gauge w) rect no_fault [])
      as [[[] | e] calls] eqn:E; [reflexivity|].
    rewrite (HP _ _ _ E). reflexivity.
  - pose (P := fun e : exn =>
                 e = OverflowError \/
                 e = ValueError "math domain error" \/
                 (e = ZeroDivisionError /\ steps (gauge w) = 0%Z)).
    assert (HP : raises_only no_fault P
                   (paint_body cos_fin sin_fin (gauge w) rect)).
    { apply paint_body_raises.
      - intros tr c e H. discriminate.
      - left. reflexivity.
      - right. left. reflexivity.
      - intro Hz. right. right. split; [reflexivity | exact Hz]. }
    unfold paintEvent.
    destruct (paint_body cos_fin sin_fin (gauge w) rect no_fault [])
      as [[[] | e] calls] eqn:E; [left; reflexivity|].
    pose proof (HP _ _ _ E) as He. right. exists e.
    assert (Ex : is_Exception e = true).
    { destruct He as [-> | [-> | [-> _]]]; reflexivity. }
    rewrite Ex. split; [reflexivity | exact He].
  - intros Hz Ht. rewrite (paintEvent_zero_steps64 w rect Hz Ht).
    reflexivity.
  - intros Hd Ht. destruct (needle_angle_total (gauge w)) as [r [_ Hn]].
    rewrite (paintEvent_no_fault64 w rect _ Hd Ht Hn). reflexivity.
Qed.

(** What is drawn, call by call. *)
Lemma draws_of_ticks64 (self : CircularGauge) (r : double) (l : list Z) :
  filter is_draw (flat_map (tick_calls cos_fin sin_fin self r) l)
  = map (tick_segment cos_fin sin_fin self r) l.
Proof.
  induction l as [|i l IH]; [reflexivity|].
  cbn [flat_map map]. rewrite filter_app, IH. reflexivity.
Qed.

Lemma draws_of_numbers64 (self : CircularGauge) (r : double) (l : list Z) :
  filter is_draw (flat_map (number_calls cos_fin sin_fin self r) l)
  = map (label_text self) l.
Proof.
  induction l as [|i l IH]; [reflexivity|].
  cbn [flat_map map]. rewrite filter_app, IH. reflexivity.
Qed.

Lemma draws_of_needle64 (self : CircularGauge) (r angle : double) :
  filter is_draw (needle_calls self r angle) = needle_shapes self r.
Proof.
  unfold needle_shapes, needle_calls. cbv zeta.
  destruct (inner_circle_brush_color self);
    cbn [filter is_draw app]; reflexivity.
Qed.

Lemma draws_of_frame64 (self : CircularGauge) (rect : QRect)
      (angle : double) :
  filter is_draw (frame_of cos_fin sin_fin self rect angle)
  = [drawPath (arc_path self (radius_of self rect))]
    ++ map (tick_segment cos_fin sin_fin self (radius_of self rect))
           (Py.range (steps self + 1))
    ++ map (label_text self) (Py.range (steps self + 1))
    ++ [drawPath (arc_path self (radius_of self rect))]
    ++ needle_shapes self (radius_of self rect).
Proof.
  unfold frame_of, dial_calls, ticks_calls, numbers_calls.
  repeat rewrite filter_app.
  rewrite draws_of_ticks64, draws_of_numbers64, draws_of_needle64.
  unfold outer_arc_calls, outer_arc2_calls.
  cbn [filter is_draw app]. repeat rewrite app_nil_r.
  repeat rewrite <- app_assoc. reflexivity.
Qed.

(** X10: when nothing fails, what a paint puts on the screen is, in this
    order: the arc, the ticks from the first to the last, the labels from
    the first to the last, the arc again, then the shadow of the needle,
    the needle, the shadow of the ring, the ring, and the disc of the hole
    when a colour is set for it. *)
Theorem paint_draw_order_on_doubles (w : Widget) (rect : QRect) :
  ticks_defined (gauge w) ->
  is_fin (float_of (outer_circle_thickness (gauge w))) = true ->
  exists frame,
    frames (snd (paintEvent cos_fin sin_fin no_fault rect w))
      = frames w ++ [frame] /\
    filter is_draw frame
    = [drawPath (arc_path (gauge w) (radius_of (gauge w) rect))]
      ++ map (tick_segment cos_fin sin_fin (gauge w)
                           (radius_of (gauge w) rect))
             (Py.range (steps (gauge w) + 1))
      ++ map (label_text (gauge w)) (Py.range (steps (gauge w) + 1))
      ++ [drawPath (arc_path (gauge w) (radius_of (gauge w) rect))]
      ++ needle_shapes (gauge w) (radius_of (gauge w) rect).
Proof.
  intros Hd Ht. destruct (needle_angle_total (gauge w)) as [r [_ Hn]].
  rewrite (paintEvent_no_fault64 w rect _ Hd Ht Hn).
  eexists. cbn [snd frames]. split; [reflexivity|].
  apply draws_of_frame64.
Qed.

(** X14: when nothing fails, a paint after [setValue(v)] executes the
    calls of the dial, which do not depend on [v], and then the calls of
    the needle at the angle of the value stored: a new value moves the
    needle and nothing else. *)
Theorem value_moves_only_needle_on_doubles
        (w : Widget) (rect : QRect) (v : double) :
  ticks_defined (gauge w) ->
  is_fin (float_of (outer_circle_thickness (gauge w))) = true ->
  exists angle,
    needle_angle (gauge (snd (setValue v w))) = Return angle /\
    frames (snd (paintEvent cos_fin sin_fin no_fault rect
                            (snd (setValue v w))))
    = frames w
      ++ [dial_calls cos_fin sin_fin (gauge w) rect
          ++ needle_calls (gauge w) (radius_of (gauge w) rect) angle].
Proof.
  intros Hd Ht.
  destruct (needle_angle_total (gauge (snd (setValue v w)))) as [r [_ Hn]].
  eexists. split; [exact Hn|].
  rewrite (paintEvent_no_fault64 (snd (setValue v w)) rect _ Hd Ht Hn).
  reflexivity.
Qed.

End Frames.

(** *** [normalize_angle] *)

Lemma Qle_bool_false (a b : Q) : Qle_bool a b = false -> b < a.
Proof.
  intro H. apply Qnot_le_lt. intro L. apply Qle_bool_iff in L. congruence.
Qed.

Lemma is_double_360 : is_double 360.
Proof. split; reflexivity. Qed.

Lemma turn_bounds (q : Q) (t : Z) :
  (inject_Z t <= q / 360 -> 360 * inject_Z t <= q) /\
  (q / 360 < inject_Z (t + 1) -> q - 360 * inject_Z t < 360) /\
  (q / 360 <= inject_Z t -> q <= 360 * inject_Z t) /\
  (inject_Z (t - 1) < q / 360 -> -(360) < q - 360 * inject_Z t).
Proof.
  unfold Z.sub. rewrite !inject_Z_plus.
  rewrite inject_Z_opp. change (inject_Z 1) with 1.
  assert (E : q / 360 == q * (1 # 360)) by field.
  rewrite E. generalize (inject_Z t). intro z.
  repeat split; intros; lra.
Qed.

(** X1: on a finite angle [normalize_angle] returns a finite angle between
    0 and 360, both included: a negative angle too small for its sum with
    360 to be below 360 comes out as 360, as for the double nearest to
    -1e-20; on an infinite angle or a NaN it returns a NaN. *)
Theorem normalize_angle_in_turn (a : double) :
  (forall q, a = Fin q ->
     exists r, normalize_angle a = Fin r /\ 0 <= r /\ r <= 360 /\
               (0 <= q -> r < 360)) /\
  (is_fin a = false -> normalize_angle a = NaN) /\
  normalize_angle (neg tiny1) = Fin 360.
Proof.
  split; [|split].
  - intros q ->. unfold normalize_angle, mod_360.
    destruct (turn_bounds q (Qfloor (q / 360))) as [F1 [F2 _]].
    destruct (turn_bounds q (Qceiling (q / 360))) as [_ [_ [C1 C2]]].
    specialize (F1 (Qfloor_le (q / 360))).
    specialize (F2 (Qlt_floor (q / 360))).
    specialize (C1 (Qle_ceiling (q / 360))).
    specialize (C2 (Qceiling_lt (q / 360))).
    destruct (Qle_bool 0 q) eqn:Eq.
    + apply Qle_bool_iff in Eq.
      remember (q - 360 * inject_Z (Qfloor (q / 360))) as m eqn:Em.
      assert (Hm : 0 <= m /\ m < 360) by (subst m; split; lra).
      clear Em F1 F2 C1 C2. destruct Hm as [Hm0 Hm1].
      destruct (Qeq_bool m 0) eqn:E0.
      * exists 0. split; [reflexivity|].
        split; [lra|]. split; [lra|]. intros; lra.
      * destruct (Qle_bool 0 m) eqn:E1.
        -- exists (Qred m). split; [reflexivity|].
           rewrite Qred_correct.
           split; [lra|]. split; [lra|]. intros; lra.
        -- exfalso. apply Qle_bool_iff in Hm0. congruence.
    + apply Qle_bool_false in Eq.
      remember (q - 360 * inject_Z (Qceiling (q / 360))) as m eqn:Em.
      assert (Hm : -(360) < m /\ m <= 0) by (subst m; split; lra).
      clear Em F1 F2 C1 C2. destruct Hm as [Hm0 Hm1].
      destruct (Qeq_bool m 0) eqn:E0.
      * exists 0. split; [reflexivity|].
        split; [lra|]. split; [lra|]. intros; lra.
      * destruct (Qle_bool 0 m) eqn:E1.
        -- apply Qle_bool_iff in E1. exists (Qred m).
           split; [reflexivity|]. rewrite Qred_correct.
           split; [lra|]. split; [lra|]. intros; lra.
        -- destruct (round_fin_between 0 360 (m + 360))
             as [r [Hr [_ [L U]]]];
             [apply is_double_0 | apply is_double_360 | lra | lra |].
           exists r. split; [exact Hr|].
           split; [lra|]. split; [lra|]. intros; lra.
  - destruct a; [discriminate | reflexivity..].
  - vm_compute. reflexivity.
Qed.

(** *** Runs of [setValue] *)

Lemma clamp_in_range (g : CircularGauge) (v : double) :
  le (min_value g) (max_value g) = true -> is_nan v = false ->
  le (min_value g) (clamp g v) = true /\
  le (clamp g v) (max_value g) = true.
Proof.
  unfold clamp, gt, lt, le.
  destruct (min_value g) as [m | [] |], (max_value g) as [M | [] |],
           v as [q | [] |];
    cbn [negb andb orb]; try discriminate; intros Hb _;
    repeat match goal with
           | |- context [Qle_bool ?a ?b] =>
               let E := fresh "E" in destruct (Qle_bool a b) eqn:E
           end;
    cbn [negb andb orb];
    repeat match goal with
           | H : Qle_bool _ _ = true |- _ => apply Qle_bool_iff in H
           | H : Qle_bool _ _ = false |- _ => apply Qle_bool_false in H
           end;
    try (split; reflexivity);
    try (split; try reflexivity; apply Qle_bool_iff; lra);
    try (exfalso; lra).
Qed.

Lemma setValues_app (vs : list double) (v : double) (w : Widget) :
  setValues (vs ++ [v]) w = snd (setValue v (setValues vs w)).
Proof.
  revert w. induction vs as [|x vs IH]; intro w; [reflexivity|].
  cbn [setValues app]. apply IH.
Qed.

Lemma setValues_keeps (vs : list double) (w : Widget) :
  min_value (gauge (setValues vs w)) = min_value (gauge w) /\
  max_value (gauge (setValues vs w)) = max_value (gauge w) /\
  update_requests (setValues vs w)
    = (update_requests w + List.length vs)%nat /\
  frames (setValues vs w) = frames w /\
  stdout (setValues vs w) = stdout w.
Proof.
  revert w. induction vs as [|x vs IH]; intro w; cbn [setValues].
  - cbn [List.length]. rewrite Nat.add_0_r. repeat split.
  - destruct (IH (snd (setValue x w))) as [H1 [H2 [H3 [H4 H5]]]].
    rewrite H1, H2, H3, H4, H5. cbn [setValue snd gauge set_value_attr
      min_value max_value update_requests frames stdout List.length].
    repeat split. lia.
Qed.

(** X4: on a gauge with [min_value <= max_value], after any run of
    [setValue] calls whose last argument is not a NaN the value is between
    the bounds; every call has asked for a redraw and nothing was painted
    or printed.  A NaN passes both tests of [setValue] and is stored. *)
Theorem setValues_in_range_on_doubles
        (vs : list double) (v : double) (w : Widget) :
  le (min_value (gauge w)) (max_value (gauge w)) = true ->
  is_nan v = false ->
  le (min_value (gauge w)) (value (gauge (setValues (vs ++ [v]) w))) = true /\
  le (value (gauge (setValues (vs ++ [v]) w))) (max_value (gauge w)) = true /\
  update_requests (setValues (vs ++ [v]) w)
    = (update_requests w + List.length vs + 1)%nat /\
  frames (setValues (vs ++ [v]) w) = frames w /\
  stdout (setValues (vs ++ [v]) w) = stdout w /\
  value (gauge (setValues (vs ++ [NaN]) w)) = NaN.
Proof.
  intros Hb Hv.
  destruct (setValues_keeps vs w) as [K1 [K2 [K3 [K4 K5]]]].
  rewrite !setValues_app.
  cbn [setValue snd gauge set_value_attr value update_requests frames
       stdout].
  rewrite K3, K4, K5.
  assert (Hb' : le (min_value (gauge (setValues vs w)))
                   (max_value (gauge (setValues vs w))) = true)
    by (rewrite K1, K2; exact Hb).
  destruct (clamp_in_range (gauge (setValues vs w)) v Hb' Hv) as [L U].
  rewrite K1 in L. rewrite K2 in U.
  split; [exact L|]. split; [exact U|]. split; [lia|].
  split; [reflexivity|]. split; [reflexivity|].
  unfold clamp, gt, lt.
  destruct (min_value (gauge (setValues vs w)));
    destruct (max_value (gauge (setValues vs w))); reflexivity.
Qed.

(** *** The constructor *)

(** X17: on doubles the constructor raises [ValueError] exactly when the
    float comparison [min_value >= max_value] holds, and otherwise stores
    its arguments, the value unclamped and [angle_range] the float
    difference of the two angles.  Between two bounds that are not NaN the
    guard lets through exactly [min_value < max_value]; a comparison with a
    NaN is false, so a NaN bound passes the guard and a gauge is built. *)
Theorem init_on_doubles (a : kwargs) :
  (ge (arg_min_value a) (arg_max_value a) = true ->
   __init__ a = Raise (ValueError "min_value must be less than max_value")) /\
  (ge (arg_min_value a) (arg_max_value a) = false ->
   exists self,
     __init__ a = Return self /\
     min_value self = arg_min_value a /\
     max_value self = arg_max_value a /\
     value self = arg_value a /\
     steps self = arg_steps a /\
     start_angle self = arg_start_angle a /\
     end_angle self = arg_end_angle a /\
     angle_range self = sub (arg_end_angle a) (arg_start_angle a)) /\
  (is_nan (arg_min_value a) = false -> is_nan (arg_max_value a) = false ->
   (ge (arg_min_value a) (arg_max_value a) = false <->
    lt (arg_min_value a) (arg_max_value a) = true)) /\
  (is_nan (arg_min_value a) = true \/ is_nan (arg_max_value a) = true ->
   exists self, __init__ a = Return self).
Proof.
  split; [|split; [|split]].
  - intro H. unfold __init__. rewrite H. reflexivity.
  - intro H. unfold __init__. rewrite H. eexists.
    split; [reflexivity|]. repeat split.
  - unfold ge, le, lt.
    destruct (arg_min_value a) as [m | [] |],
             (arg_max_value a) as [M | [] |];
      cbn [is_nan negb andb orb]; intros H1 H2; try discriminate;
      try (destruct (Qle_bool M m));
      split; intro H; try reflexivity; try discriminate.
  - intro H. unfold __init__.
    assert (E : ge (arg_min_value a) (arg_max_value a) = false).
    { unfold ge, le.
      destruct H as [H | H];
        destruct (arg_min_value a), (arg_max_value a);
        try discriminate; reflexivity. }
    rewrite E. eexists. reflexivity.
Qed.

(** *** The theorems at concrete gauges *)

Lemma range_forallb (p : Z -> bool) (n : Z) :
  forallb p (Py.range (n + 1)) = true ->
  forall i, (0 <= i <= n)%Z -> p i = true.
Proof.
  intros H i Hi. rewrite forallb_forall in H. apply H.
  unfold Py.range. apply in_map_iff. exists (Z.to_nat i).
  split; [lia|]. apply in_seq. lia.
Qed.

Lemma init_demo64 : __init__ demo_kwargs = Return demo_gauge.
Proof. reflexivity. Qed.

Lemma demo_ticks_defined : ticks_defined demo_gauge.
Proof.
  split; [discriminate|]. split; [reflexivity|].
  intros i Hi.
  apply negb_true_iff.
  apply (range_forallb
           (fun i => negb (is_inf (radians (tick_angle demo_gauge i))))
           (steps demo_gauge)); [|exact Hi].
  vm_compute. reflexivity.
Qed.

Lemma needle_angle_on_doubles_witness :
  exists a1 a2,
    needle_angle (gauge (snd (setValue (Fin 10) (new_widget demo_gauge))))
      = Return a1 /\
    needle_angle (gauge (snd (setValue (Fin 20) (new_widget demo_gauge))))
      = Return a2 /\
    le a1 a2 = true.
Proof.
  destruct (needle_angle_on_doubles (new_widget demo_gauge)
                                    (Fin 10) (Fin 20))
    as [[a1 [a2 [amin [amax [H1 [H2 [_ [_ [_ [_ [Hinc _]]]]]]]]]]] _].
  - exists 0. split; [reflexivity|]. split; vm_compute; reflexivity.
  - exists 30. split; [reflexivity|]. split; vm_compute; reflexivity.
  - exists (-(210)). split; [reflexivity|]. split; vm_compute; reflexivity.
  - exists 240. split; [reflexivity|]. split; vm_compute; reflexivity.
  - reflexivity.
  - reflexivity.
  - reflexivity.
  - reflexivity.
  - reflexivity.
  - reflexivity.
  - exists a1, a2. split; [exact H1|]. split; [exact H2|].
    apply Hinc. reflexivity.
Defined.

Lemma ticks_and_labels_on_doubles_witness :
  exists frame,
    frames (snd (paintEvent (fun x => x) (fun x => x) no_fault
                            (mkRect 400 300) (new_widget demo_gauge)))
      = [frame] /\
    List.length (filter is_drawLine frame) = 16%nat /\
    exists text,
      nth_error (filter is_drawText frame) 15
        = Some (drawText
                  (mkRectF (Fin (-(15))) (Fin (-(15))) (Fin 34) (Fin 34))
                  text) /\
      shows_rounded 30 text.
Proof.
  destruct (ticks_and_labels_on_doubles
              (fun x => x) (fun x => x)
              (new_widget demo_gauge) (mkRect 400 300))
    as [frame [_ [Hf [_ [Hl [_ Hn]]]]]].
  - discriminate.
  - reflexivity.
  - reflexivity.
  - reflexivity.
  - exact (proj2 (proj2 demo_ticks_defined)).
  - exists frame. split; [exact Hf|]. split; [exact Hl|].
    assert (H15 : (0 <= 15 <= steps (gauge (new_widget demo_gauge)))%Z)
      by (split; discriminate).
    destruct (Hn 15%Z H15) as [_ [text [Ht [_ [Hq _]]]]].
    exists text. split; [exact Ht|]. apply Hq. reflexivity.
Defined.

(** C6, as stated, fails on doubles.  The constructor accepts the sweep
    from -2^1023 to 2^1023 with [steps = 1]; its [angle_range] is
    infinite, the first tick is drawn at a NaN angle, [math.cos] raises on
    the infinite angle of the second, and the paint stops there: one tick
    and no label are drawn where [steps + 1 = 2] of each are claimed.  On
    the gauge from -2.9 to 2.5 with [steps = 1], the label of index 1 reads
    [3], where the value [min_value + 1 * (max_value - min_value) / 1] of
    the formula is half-way between 2 and 3 and has [2] for its text with
    no decimals. *)
Lemma ticks_and_labels_not_exact :
  (__init__ wide_kwargs = Return (gauge_of_args wide_kwargs) /\
   (1 <= steps (gauge_of_args wide_kwargs))%Z /\
   exists frame,
     frames (snd (paintEvent (fun x => x) (fun x => x) no_fault
                             (mkRect 400 300)
                             (new_widget (gauge_of_args wide_kwargs))))
       = [frame] /\
     List.length (filter is_drawLine frame) = 1%nat /\
     List.length (filter is_drawText frame) = 0%nat /\
     stdout (snd (paintEvent (fun x => x) (fun x => x) no_fault
                             (mkRect 400 300)
                             (new_widget (gauge_of_args wide_kwargs))))
       = [Error_in_paintEvent (ValueError "math domain error")]) /\
  (__init__ odd_kwargs = Return (gauge_of_args odd_kwargs) /\
   exists m M,
     arg_min_value odd_kwargs = Fin m /\
     arg_max_value odd_kwargs = Fin M /\
     m + inject_Z 1 * (M - m) / inject_Z 1 == 5 # 2 /\
     Py.format_0f (m + inject_Z 1 * (M - m) / inject_Z 1) = "2"%string /\
     format_0f (label_value (gauge_of_args odd_kwargs) 1) = "3"%string).
Proof.
  split.
  - split; [reflexivity|]. split; [discriminate|].
    eexists. split; [vm_compute; reflexivity|].
    split; [reflexivity|]. split; [reflexivity|].
    vm_compute. reflexivity.
  - split; [reflexivity|]. eexists. eexists.
    split; [reflexivity|]. split; [reflexivity|].
    split; [reflexivity|]. split; vm_compute; reflexivity.
Qed.


(** A paint of the demo gauge into an empty rectangle runs to its end (the
    radius is negative, nothing is raised); on a toolkit that cannot draw
    text the error is printed and the callback returns. *)
Example empty_rectangle_paint64 :
  fst (paintEvent (fun x => x) (fun x => x) no_fault (mkRect 0 0)
                  (new_widget demo_gauge)) = Return tt /\
  stdout (snd (paintEvent (fun x => x) (fun x => x) no_fault (mkRect 0 0)
                          (new_widget demo_gauge))) = [] /\
  fst (paintEvent (fun x => x) (fun x => x) no_text (mkRect 0 0)
                  (new_widget demo_gauge)) = Return tt /\
  stdout (snd (paintEvent (fun x => x) (fun x => x) no_text (mkRect 0 0)
                          (new_widget demo_gauge)))
    = [Error_in_paintEvent (RuntimeError "no font")].
Proof. repeat split; vm_compute; reflexivity. Qed.

Lemma setValues_in_range_on_doubles_witness :
  value (gauge (setValues ([Fin 100; Inf false] ++ [Fin 12])
                          (new_widget demo_gauge))) = Fin 12 /\
  le (min_value demo_gauge)
     (value (gauge (setValues ([Fin 100; Inf false] ++ [Inf true])
                              (new_widget demo_gauge)))) = true.
Proof.
  split; [reflexivity|].
  exact (proj1 (setValues_in_range_on_doubles
                  [Fin 100; Inf false] (Inf true) (new_widget demo_gauge)
                  eq_refl eq_refl)).
Defined.

Lemma paint_draw_order_on_doubles_witness :
  exists frame,
    frames (snd (paintEvent (fun x => x) (fun x => x) no_fault
                            (mkRect 400 300) (new_widget demo_gauge)))
      = [frame] /\
    List.length (filter is_draw frame) = 39%nat.
Proof.
  destruct (paint_draw_order_on_doubles
              (fun x => x) (fun x => x)
              (new_widget demo_gauge) (mkRect 400 300)
              demo_ticks_defined eq_refl)
    as [frame [Hf Hd]].
  exists frame. split; [exact Hf|]. rewrite Hd. reflexivity.
Defined.

Lemma value_moves_only_needle_on_doubles_witness :
  exists angle,
    frames (snd (paintEvent (fun x => x) (fun x => x) no_fault
                            (mkRect 400 300)
                            (snd (setValue (Fin 15) (new_widget demo_gauge)))))
    = [dial_calls (fun x => x) (fun x => x) demo_gauge (mkRect 400 300)
       ++ needle_calls demo_gauge (radius_of demo_gauge (mkRect 400 300))
                       angle].
Proof.
  destruct (value_moves_only_needle_on_doubles
              (fun x => x) (fun x => x)
              (new_widget demo_gauge) (mkRect 400 300) (Fin 15)
              demo_ticks_defined eq_refl)
    as [angle [_ Hf]].
  exists angle. exact Hf.
Defined.

End B64Facts.

(* ================================================================= *)
(** ** The rounding against hardware doubles *)

Module B64Hardware.
Import PrimFloat.
#[local] Set Warnings "-inexact-float".

(** The operations of [B64] give what the hardware gives: a sum that is not
    exact, a quotient, an overflow, two subnormal results, the needle angle
    of the gauge with the sweep from -210.5 to 30.1 at its maximum. *)
Example sum_as_hardware :
  B64.of_prim (0.1 + 0.2)
  = B64.add (B64.of_prim 0.1) (B64.of_prim 0.2).
Proof. vm_compute. reflexivity. Qed.

Example quotient_as_hardware :
  B64.of_prim (1 / 3) = B64.quot (B64.Fin 1) (B64.Fin 3).
Proof. vm_compute. reflexivity. Qed.

Example overflow_as_hardware :
  B64.of_prim (1e308 * 10) = B64.mul (B64.of_prim 1e308) (B64.Fin 10) /\
  B64.of_prim (1e308 * 10) = B64.Inf false /\
  B64.of_prim (1.7976931348623157e308 + 9.9e291)
  = B64.add (B64.of_prim 1.7976931348623157e308) (B64.of_prim 9.9e291) /\
  B64.of_prim (1.7976931348623157e308 + 1e292)
  = B64.add (B64.of_prim 1.7976931348623157e308) (B64.of_prim 1e292).
Proof. repeat split; vm_compute; reflexivity. Qed.

Example subnormal_as_hardware :
  B64.of_prim (1e-320 / 3) = B64.quot (B64.of_prim 1e-320) (B64.Fin 3) /\
  B64.of_prim (1e-323 / 3) = B64.quot (B64.of_prim 1e-323) (B64.Fin 3) /\
  B64.of_prim (1e-200 * 1e-200)
  = B64.mul (B64.of_prim 1e-200) (B64.of_prim 1e-200).
Proof. repeat split; vm_compute; reflexivity. Qed.

Example needle_as_hardware :
  B64.needle_after B64.skewed_kwargs (B64.Fin 30)
  = B64.Return
      (B64.of_prim (-210.5 + ((30 - 0) / (30 - 0)) * (30.1 - -210.5))) /\
  B64.needle_after B64.defaults B64.tiny1
  = B64.Return
      (B64.of_prim (-210 + ((1e-20 - 0) / (100 - 0)) * (30 - -210))).
Proof. split; vm_compute; reflexivity. Qed.

(** The constants written as rationals are the doubles meant. *)
Example constants_as_hardware :
  B64.Fin B64.deg_to_rad = B64.of_prim (3.141592653589793 / 180) /\
  B64.tiny1 = B64.of_prim 1e-20 /\
  B64.tiny2 = B64.of_prim 2e-20 /\
  B64.arg_end_angle B64.skewed_kwargs = B64.of_prim 30.1 /\
  B64.arg_min_value B64.odd_kwargs = B64.of_prim (-2.9) /\
  B64.arg_start_angle B64.wide_kwargs = B64.of_prim (-0x1p1023).
Proof. repeat split; vm_compute; reflexivity. Qed.

(** The label of the gauge from -2.9 to 2.5 with one step. *)
Example label_as_hardware :
  B64.label_value (B64.gauge_of_args B64.odd_kwargs) 1
  = B64.of_prim (-2.9 + 1 * (2.5 - -2.9) / 1).
Proof. vm_compute. reflexivity. Qed.

End B64Hardware.
